(** * MENACE: matchboxes and the learning agent

    A shallow embedding of [matchbox.py] and [menace.py].

    Python values that can be dictionary keys are embedded as [PyVal];
    a Python [dict] is an insertion-ordered association list with unique
    keys; a method that mutates [self] becomes a function returning the new
    object, and a method that can raise returns a [result].  The agent's
    methods, which mutate the agent and the model file and can raise half-way
    through, live in a state monad over the pair of the agent and the file
    store whose computations return [result]s.  The floats of
    [random.choices] are numbers [m * 2^e] with the rounding of IEEE 754
    binary64. *)

From Stdlib Require Import ZArith Lia Ascii String.
From stdpp Require Import base decidable option list strings gmap pretty.
From Equations Require Import Equations.

Local Open Scope Z_scope.

(** ** Python values, exceptions, dictionaries *)

Module Py.

(** The hashable values the program handles: integers, strings and tuples
    of such values. *)
#[local] Unset Elimination Schemes.
Inductive PyVal : Type :=
| PInt (z : Z)
| PStr (s : string)
| PTuple (vs : list PyVal).
#[local] Set Elimination Schemes.

Definition PyVal_eq_dec : ∀ x y : PyVal, {x = y} + {x ≠ y}.
Proof.
  fix IH 1.
  intros [z1|s1|l1] [z2|s2|l2]; try (right; discriminate).
  - destruct (decide (z1 = z2)) as [->|Hne]; [left; reflexivity|].
    right; intros [= E]; exact (Hne E).
  - destruct (decide (s1 = s2)) as [->|Hne]; [left; reflexivity|].
    right; intros [= E]; exact (Hne E).
  - assert (Hl : {l1 = l2} + {l1 ≠ l2}).
    { revert l2. induction l1 as [|a l1 IHl]; intros [|b l2];
        try (right; discriminate); [left; reflexivity|].
      destruct (IH a b) as [->|Hne]; [|right; intros [= E _]; exact (Hne E)].
      destruct (IHl l2) as [->|Hne]; [left; reflexivity|].
      right; intros [= E]; exact (Hne E). }
    destruct Hl as [->|Hne]; [left; reflexivity|].
    right; intros [= E]; exact (Hne E).
Defined.

#[export] Instance PyVal_eq_decision : EqDecision PyVal := PyVal_eq_dec.

(** The exceptions the two files can raise.  [KeyError] carries the missing
    key, the two exceptions raised by [menace.py] itself carry their
    message. *)
Inductive exn : Type :=
| KeyError (key : PyVal)
| ValueError
| TypeError
| IndexError
| OverflowError
| FileNotFoundError (msg : string)
| Exception (msg : string).

Inductive result (A : Type) : Type :=
| Ok (a : A)
| Raise (e : exn).
Arguments Ok {A} a.
Arguments Raise {A} e.

Definition is_ok {A} (r : result A) : bool :=
  match r with Ok _ => true | Raise _ => false end.

#[export] Instance result_ret : MRet result := λ A a, Ok a.
#[export] Instance result_bind : MBind result := λ A B k r,
  match r with
  | Ok a => k a
  | Raise e => Raise e
  end.

(** *** Sequences

    [l[start::2]]: a negative start counts from the end, and a start past
    either end is clipped to it. *)
Fixpoint stride2 {A} (l : list A) : list A :=
  match l with
  | [] => []
  | x :: l' => x :: match l' with
                    | [] => []
                    | _ :: l'' => stride2 l''
                    end
  end.

Definition slice_start (len : nat) (start : Z) : nat :=
  Z.to_nat (if start <? 0 then Z.max (start + Z.of_nat len) 0
            else Z.min start (Z.of_nat len)).

Definition slice_from_step2 {A} (l : list A) (start : Z) : list A :=
  stride2 (drop (slice_start (length l) start) l).

(** Unpacking into two targets, [a, b = v]: a tuple of two items or a
    string of two characters; any other length is a [ValueError], an
    integer cannot be iterated. *)
Definition unpack2 (v : PyVal) : result (PyVal * PyVal) :=
  match v with
  | PTuple [a; b] => Ok (a, b)
  | PTuple _ => Raise ValueError
  | PStr (String c1 (String c2 EmptyString)) =>
      Ok (PStr (String c1 EmptyString), PStr (String c2 EmptyString))
  | PStr _ => Raise ValueError
  | PInt _ => Raise TypeError
  end.

(** *** Dictionaries

    [d.get(k)], [d[k] = v], [d.keys()], [d.values()] and [d.items()].
    Assignment to a key that is present keeps the key's place;
    a new key goes to the end. *)
Section dict.
Context {K V : Type} `{EqDecision K}.

Definition dict : Type := list (K * V).

Fixpoint dict_get (d : dict) (k : K) : option V :=
  match d with
  | [] => None
  | (k', v) :: d' => if decide (k' = k) then Some v else dict_get d' k
  end.

Fixpoint dict_set (d : dict) (k : K) (v : V) : dict :=
  match d with
  | [] => [(k, v)]
  | (k', v') :: d' =>
      if decide (k' = k) then (k', v) :: d' else (k', v') :: dict_set d' k v
  end.

Definition dict_keys (d : dict) : list K := d.*1.
Definition dict_values (d : dict) : list V := d.*2.
Definition dict_items (d : dict) : list (K * V) := d.
End dict.
Arguments dict : clear implicits.

End Py.
Export Py.

(** ** Floats

    [random.choices] computes with floats: it converts the total weight to
    a float, multiplies it with the value of [random()] and compares the
    product with the running sums, which are integers.  A finite float is
    a number [m * 2^e]; several pairs [m], [e] stand for the same number,
    and nothing below tells them apart.  Results are rounded as IEEE 754
    binary64 has it: 53 bits of precision, to the nearest float and on a
    tie to the one with an even last bit, no quantum below [2^-1074], and
    infinity from [2^1024] on.  The two zeros are not distinguished; no
    comparison here does. *)

Module Float.

Inductive t : Type :=
| Finite (m e : Z)
| Infinity (negative : bool)
| NaN.

Definition mant_dig : Z := 53.
Definition max_exp : Z := 1024.
Definition min_quantum : Z := -1074.

(** [n / 2^k] rounded to the nearest integer, a tie to the even one, for
    [0 ≤ n] and [0 < k]. *)
Definition shift_round (n k : Z) : Z :=
  let q := n / 2 ^ k in
  let r := n mod 2 ^ k in
  let half := 2 ^ (k - 1) in
  if r <? half then q
  else if half <? r then q + 1
  else if Z.even q then q else q + 1.

(** The float nearest to [n * 2^e], for [0 ≤ n], with the given sign.  The
    quantum [2^c] of the result leaves at most 53 bits of [n]; a number
    that is a multiple of it already is kept as it is. *)
Definition round (negative : bool) (n e : Z) : t :=
  let c := Z.max (e + Z.log2 n + 1 - mant_dig) min_quantum in
  let '(m, q) := if c <=? e then (n, e) else (shift_round n (c - e), c) in
  if (0 <? m) && (max_exp <=? q + Z.log2 m) then Infinity negative
  else Finite (if negative then - m else m) q.

(** [float(n)] of an integer, as [n + 0.0] computes it: an integer beyond
    the range of floats is an [OverflowError]. *)
Definition of_int (n : Z) : result t :=
  match round (n <? 0) (Z.abs n) 0 with
  | Infinity _ => Raise OverflowError
  | x => Ok x
  end.

(** The least integer, in absolute value, that [of_int] does not convert:
    half-way between the largest float and [2^1024]. *)
Definition int_limit : Z := 2 ^ 1024 - 2 ^ 970.

(** [x * y] *)
Definition mul (x y : t) : t :=
  match x, y with
  | Finite m1 e1, Finite m2 e2 =>
      round (xorb (m1 <? 0) (m2 <? 0)) (Z.abs m1 * Z.abs m2) (e1 + e2)
  | NaN, _ | _, NaN => NaN
  | Infinity s, Finite m _ | Finite m _, Infinity s =>
      if m =? 0 then NaN else Infinity (xorb s (m <? 0))
  | Infinity s1, Infinity s2 => Infinity (xorb s1 s2)
  end.

(** [x < z] for an integer [z]: Python compares a float and an integer by
    their values, without converting either. *)
Definition lt_int (x : t) (z : Z) : bool :=
  match x with
  | Finite m e => if 0 <=? e then m * 2 ^ e <? z else m <? z * 2 ^ (- e)
  | Infinity negative => negative
  | NaN => false
  end.

(** [x <= 0.0] and [math.isfinite(x)] *)
Definition le_zero (x : t) : bool :=
  match x with
  | Finite m _ => m <=? 0
  | Infinity negative => negative
  | NaN => false
  end.

Definition isfinite (x : t) : bool :=
  match x with
  | Finite _ _ => true
  | _ => false
  end.

End Float.

(** ** matchbox.py *)

Module Matchbox.

Definition Move : Type := PyVal.

Record t : Type := mk {
  state : string;
  moves_and_beads : dict Move Z
}.

(** [Matchbox.get_beads] *)
Definition get_beads (self : t) (move : Move) : Z :=
  default (-1) (dict_get (moves_and_beads self) move).

Definition min_beads : Z := 1.
Definition max_beads : Z := 15.

(** [Matchbox._set_beads]: the right-hand side is evaluated first, so a
    missing move raises before anything is stored. *)
Definition _set_beads (self : t) (move : Move) (change : Z) : result t :=
  match dict_get (moves_and_beads self) move with
  | None => Raise (KeyError move)
  | Some beads =>
      Ok (mk (state self)
             (dict_set (moves_and_beads self) move
                (Z.min (Z.max min_beads (beads + change)) max_beads)))
  end.

(** [Matchbox.reward] and [Matchbox.punish] *)
Definition reward (self : t) (move : Move) : result t := _set_beads self move 1.
Definition punish (self : t) (move : Move) : result t := _set_beads self move (-1).

(** [random.choices(population, weights=weights, k=1)[0]] of the standard
    library, after CPython's [Lib/random.py] (3.9 and later, which reject a
    total weight that is not positive) and [bisect.bisect_right].
    [rnd] stands for the value of [random()], a float from 0.0 up to and
    not including 1.0.  The running sums are integers; the last one is
    converted to a float, [total = cum_weights[-1] + 0.0], the product
    [random() * total] is a float product, and the search compares it with
    the running sums. *)
Fixpoint accumulate_from (acc : Z) (ws : list Z) : list Z :=
  match ws with
  | [] => []
  | w :: ws' => (acc + w) :: accumulate_from (acc + w) ws'
  end.

Definition accumulate (ws : list Z) : list Z := accumulate_from 0 ws.

Equations? bisect (a : list Z) (x : Float.t) (lo hi : nat) : result nat
  by wf (hi - lo)%nat lt :=
  bisect a x lo hi with decide (lo < hi)%nat => {
    | left _ with a !! ((lo + hi) / 2)%nat => {
        | None := Raise IndexError
        | Some a_mid with Float.lt_int x a_mid => {
            | true := bisect a x lo ((lo + hi) / 2)%nat
            | false := bisect a x ((lo + hi) / 2 + 1)%nat hi } }
    | right _ := Ok lo }.
Proof.
  all: change (Nat.divmod (lo + hi) 1 0 1).1 with ((lo + hi) / 2)%nat;
    pose proof (Nat.div_mod_eq (lo + hi) 2);
    pose proof (Nat.mod_upper_bound (lo + hi) 2); lia.
Qed.

Definition choices (population : list Move) (weights : list Z) (rnd : Float.t)
  : result Move :=
  let n := length population in
  let cum_weights := accumulate weights in
  if negb (length cum_weights =? n)%nat then Raise ValueError else
  match last cum_weights with
  | None => Raise IndexError
  | Some last_sum =>
      match Float.of_int last_sum with
      | Raise e => Raise e
      | Ok total =>
          if Float.le_zero total then Raise ValueError else
          if negb (Float.isfinite total) then Raise ValueError else
          match bisect cum_weights (Float.mul rnd total) 0 (n - 1) with
          | Raise e => Raise e
          | Ok i =>
              match population !! i with
              | None => Raise IndexError
              | Some move => Ok move
              end
          end
      end
  end.

(** [Matchbox.draw_bead] *)
Definition draw_bead (self : t) (rnd : Float.t) : result Move :=
  let moves := dict_keys (moves_and_beads self) in
  let weights := dict_values (moves_and_beads self) in
  choices moves weights rnd.

(** [Matchbox.to_dict] and [Matchbox.from_dict].  The record is a dictionary
    from field names to field values.  Python's constructor stores whatever
    it is given; a record whose two fields hold values of the wrong kind has
    no [Matchbox.t] here and is marked [TypeError]. *)
Inductive field : Type :=
| FState (s : string)
| FMoves (d : dict Move Z).

Definition to_dict (self : t) : dict string field :=
  [("state", FState (state self)); ("moves", FMoves (moves_and_beads self))].

Definition from_dict (d : dict string field) : result t :=
  match dict_get d "state" with
  | None => Raise (KeyError (PStr "state"))
  | Some f_state =>
      match dict_get d "moves_and_beads" with
      | None => Raise (KeyError (PStr "moves_and_beads"))
      | Some f_moves =>
          match f_state, f_moves with
          | FState s, FMoves m => Ok (mk s m)
          | _, _ => Raise TypeError
          end
      end
  end.

End Matchbox.

(** ** The model file

    [json.dump] writes integers and strings as they are and tuples as
    lists; [json.load] gives lists back.  A model file holds one JSON
    object: per state, the list of its move records
    [{"move": [[from_row, from_col], [to_row, to_col]], "beads": beads}].
    Files of another shape are not modelled. *)

Module Json.

#[local] Unset Elimination Schemes.
Inductive JVal : Type :=
| JInt (z : Z)
| JStr (s : string)
| JList (vs : list JVal).
#[local] Set Elimination Schemes.

Fixpoint dump (v : PyVal) : JVal :=
  match v with
  | PInt z => JInt z
  | PStr s => JStr s
  | PTuple vs => JList (map dump vs)
  end.

(** What [json.load] returns is used as a component of a dictionary key:
    integers and strings are hashable, a list is not. *)
Definition hashable (j : JVal) : result PyVal :=
  match j with
  | JInt z => Ok (PInt z)
  | JStr s => Ok (PStr s)
  | JList _ => Raise TypeError
  end.

Record move_record : Type := mk_record {
  move : (JVal * JVal) * (JVal * JVal);
  beads : Z
}.

Definition model_json : Type := dict string (list move_record).

(** The files under [models/], by path. *)
Abbreviation FS := (gmap string model_json).

End Json.
Export Json.

(** ** menace.py *)

Module Menace.

Import Matchbox.

Record t : Type := mk {
  player_position : option Z;
  game_name : string;
  states_and_moves : option (dict string (list Move));
  model_path : string;
  matchboxes : dict string Matchbox.t
}.

(** What a method can read and write: the agent and the model files. *)
Record world : Type := World {
  self : t;
  files : FS
}.

(** A method body: it ends by returning or raising, and leaves in either
    case the world as it was at that point. *)
Definition M (A : Type) : Type := world → result A * world.

#[export] Instance M_ret : MRet M := λ A a w, (Ok a, w).
#[export] Instance M_bind : MBind M := λ A B k m w,
  match m w with
  | (Ok a, w') => k a w'
  | (Raise e, w') => (Raise e, w')
  end.

Definition raise {A} (e : exn) : M A := λ w, (Raise e, w).
Definition lift {A} (r : result A) : M A := λ w, (r, w).
Definition get_self : M t := λ w, (Ok (self w), w).
Definition get_files : M FS := λ w, (Ok (files w), w).
Definition with_matchboxes (me : t) (mbs : dict string Matchbox.t) : t :=
  mk (player_position me) (game_name me) (states_and_moves me) (model_path me) mbs.
Definition with_model_path (me : t) (path : string) : t :=
  mk (player_position me) (game_name me) (states_and_moves me) path (matchboxes me).
Definition set_matchboxes (mbs : dict string Matchbox.t) : M unit := λ w,
  (Ok tt, World (with_matchboxes (self w) mbs) (files w)).
Definition set_model_path (path : string) : M unit := λ w,
  (Ok tt, World (with_model_path (self w) path) (files w)).
Definition write_file (path : string) (content : model_json) : M unit := λ w,
  (Ok tt, World (self w) (<[path := content]> (files w))).

Fixpoint for_each {A} (l : list A) (body : A → M unit) : M unit :=
  match l with
  | [] => mret tt
  | x :: l' => body x ;; for_each l' body
  end.

(** [self.matchboxes[state] = matchbox] *)
Definition store_matchbox (state : string) (matchbox : Matchbox.t) : M unit :=
  me ← get_self;
  set_matchboxes (dict_set (matchboxes me) state matchbox).

(** *** Paths *)

Fixpoint ends_with_slash (s : string) : bool :=
  match s with
  | EmptyString => false
  | String c EmptyString => bool_decide (c = "/"%char)
  | String _ s' => ends_with_slash s'
  end.

(** [os.path.join(a, b)] for a relative [b]. *)
Definition os_path_join (a b : string) : string :=
  if bool_decide (a = "") || ends_with_slash a then a +:+ b
  else a +:+ "/" +:+ b.

(** [str(player_position)] inside the f-string. *)
Definition str_of_position (p : option Z) : string :=
  match p with
  | Some z => pretty z
  | None => "None"
  end.

Definition default_model_path (base_dir game_name : string)
    (player_position : option Z) : string :=
  os_path_join base_dir
    ("models/" +:+ game_name +:+ "_player" +:+ str_of_position player_position
     +:+ "_menace_model.json").

Definition os_path_exists (fs : FS) (path : string) : bool :=
  bool_decide (is_Some (fs !! path)).

(** *** [Menace.save_model] *)

(** [(from_row, from_col), (to_row, to_col) = move] *)
Definition unpack_move (move : Move)
  : result ((PyVal * PyVal) * (PyVal * PyVal)) :=
  '(a, b) ← unpack2 move;
  '(from_row, from_col) ← unpack2 a;
  '(to_row, to_col) ← unpack2 b;
  mret ((from_row, from_col), (to_row, to_col)).

(** The inner loop: one record per move, in the order of the items. *)
Fixpoint moves_list_of (items : list (Move * Z)) : result (list move_record) :=
  match items with
  | [] => mret []
  | (move, beads) :: rest =>
      '((from_row, from_col), (to_row, to_col)) ← unpack_move move;
      moves_list ← moves_list_of rest;
      mret (mk_record ((dump from_row, dump from_col),
                       (dump to_row, dump to_col)) beads :: moves_list)
  end.

(** The outer loop, with [model_json] as it is so far. *)
Fixpoint dump_matchboxes (items : list (string * Matchbox.t))
    (model_json : model_json) : result Json.model_json :=
  match items with
  | [] => mret model_json
  | (state, matchbox) :: rest =>
      moves_list ← moves_list_of (dict_items (moves_and_beads matchbox));
      dump_matchboxes rest (dict_set model_json state moves_list)
  end.

Definition save_model : M unit :=
  me ← get_self;
  model_json ← lift (dump_matchboxes (dict_items (matchboxes me)) []);
  write_file (model_path me) model_json.

(** *** [Menace.import_model] *)

(** The inner loop, with [moves_and_beads] as it is so far. *)
Fixpoint load_moves (moves_list : list move_record)
    (moves_and_beads : dict Move Z) : result (dict Move Z) :=
  match moves_list with
  | [] => mret moves_and_beads
  | item :: rest =>
      let '((from_row, from_col), (to_row, to_col)) := move item in
      from_row ← hashable from_row;
      from_col ← hashable from_col;
      to_row ← hashable to_row;
      to_col ← hashable to_col;
      let move_tuple :=
        PTuple [PTuple [from_row; from_col]; PTuple [to_row; to_col]] in
      load_moves rest (dict_set moves_and_beads move_tuple (beads item))
  end.

Definition no_such_file (path : string) : exn :=
  FileNotFoundError ("[Errno 2] No such file or directory: '" +:+ path +:+ "'").

Definition import_model (model_file : string) : M unit :=
  fs ← get_files;
  match fs !! model_file with
  | None => raise (no_such_file model_file)
  | Some model_json =>
      for_each (dict_items model_json) (λ '(state_str, moves_list),
        moves_and_beads ← lift (load_moves moves_list []);
        store_matchbox state_str (Matchbox.mk state_str moves_and_beads))
  end.

(** *** [Menace.create_model] *)

Definition fresh_beads (moves : list Move) (initial_beads : Z) : dict Move Z :=
  foldl (λ moves_and_beads move, dict_set moves_and_beads move initial_beads)
        [] moves.

Definition create_model (base_dir : string) (player_position : option Z)
    (game_name : string) (states_and_moves : dict string (list Move))
    (initial_beads : Z) : M unit :=
  for_each (dict_items states_and_moves) (λ '(state, moves),
    store_matchbox state (Matchbox.mk state (fresh_beads moves initial_beads)));;
  set_model_path (default_model_path base_dir game_name player_position);;
  save_model.

(** *** [Menace.__init__]

    The keyword arguments; [game_name] is read with [kwargs['game_name']],
    the other two with [kwargs.get]. *)
Record kwargs : Type := Kwargs {
  kw_player_position : option Z;
  kw_game_name : option string;
  kw_states_and_moves : option (dict string (list Move))
}.

Definition model_not_found : exn :=
  FileNotFoundError "A model for this game was not found.".

Definition __init__ (base_dir : string) (kw : kwargs) (fs : FS)
  : result t * FS :=
  match kw_game_name kw with
  | None => (Raise (KeyError (PStr "game_name")), fs)
  | Some name =>
      let path := default_model_path base_dir name (kw_player_position kw) in
      let me := mk (kw_player_position kw) name (kw_states_and_moves kw) path [] in
      let body : M unit :=
        if os_path_exists fs path then import_model path
        else match kw_states_and_moves kw with
             | Some table =>
                 create_model base_dir (kw_player_position kw) name table 3;;
                 me' ← get_self;
                 import_model (model_path me')
             | None => raise model_not_found
             end in
      match body (World me fs) with
      | (Ok _, w) => (Ok (self w), files w)
      | (Raise e, w) => (Raise e, files w)
      end
  end.

(** *** [Menace.get_move] *)

Definition newline : string := String (ascii_of_nat 10) EmptyString.

Definition get_move (me : t) (board_state : string) (rnd : Float.t)
  : result Move :=
  match dict_get (matchboxes me) board_state with
  | None =>
      Raise (Exception ("No matchbox found for board state:" +:+ newline
                        +:+ board_state))
  | Some matchbox => draw_bead matchbox rnd
  end.

(** *** [Menace._train_model] and [Menace.game_report] *)

(** [self.matchboxes[state].reward(move)], and the same with [punish]: the
    matchbox is looked up, then changed in place. *)
Definition adjust (op : Matchbox.t → Move → result Matchbox.t)
    (state : string) (move : Move) : M unit :=
  me ← get_self;
  match dict_get (matchboxes me) state with
  | None => raise (KeyError (PStr state))
  | Some matchbox =>
      matchbox' ← lift (op matchbox move);
      store_matchbox state matchbox'
  end.

Definition _train_model (game_history : list (string * Move))
    (player_position winner_position : Z) : M unit :=
  let player_idx := player_position - 1 in
  (if decide (player_position = winner_position)
   then for_each (slice_from_step2 game_history player_idx)
          (λ '(state, move), adjust reward state move)
   else for_each (slice_from_step2 game_history player_idx)
          (λ '(state, move), adjust punish state move));;
  save_model.

Definition game_report (game_history : list (string * Move))
    (player_position winner_position : Z) : M unit :=
  _train_model game_history player_position winner_position.

End Menace.

(** ** Call sequences on one matchbox

    The lifetime of a matchbox is a sequence of [reward] and [punish] calls.
    [perform_all] runs them while none raises; [after_all] is the object
    they leave behind when a caller catches what is raised. *)

Module Calls.

Import Matchbox.

Inductive call : Type :=
| Reward (move : Move)
| Punish (move : Move).

Definition call_move (c : call) : Move :=
  match c with
  | Reward move | Punish move => move
  end.

Definition perform (self : Matchbox.t) (c : call) : result Matchbox.t :=
  match c with
  | Reward move => reward self move
  | Punish move => punish self move
  end.

Fixpoint perform_all (self : Matchbox.t) (cs : list call) : result Matchbox.t :=
  match cs with
  | [] => Ok self
  | c :: cs' => self' ← perform self c; perform_all self' cs'
  end.

Definition after (self : Matchbox.t) (c : call) : Matchbox.t :=
  match perform self c with
  | Ok self' => self'
  | Raise _ => self
  end.

Definition after_all (self : Matchbox.t) (cs : list call) : Matchbox.t :=
  foldl after self cs.

Definition in_bounds (beads : Z) : Prop := min_beads ≤ beads ≤ max_beads.

Definition weights_in_bounds (self : Matchbox.t) : Prop :=
  Forall in_bounds (dict_values (moves_and_beads self)).

End Calls.

(** ** Training, in the words of the specification

    The acting player's pairs are those at the positions
    [player_position - 1], [player_position - 1 + 2], ... of the history;
    each is rewarded on a win and punished otherwise; then the model is
    saved.  [weight_at] and [keys_at] read one matchbox of an agent. *)

Module Spec.

Import Matchbox Menace.

Definition own_pairs {A} (game_history : list A) (player_position : Z) : list A :=
  omap (λ k : nat,
          let i := player_position - 1 + 2 * Z.of_nat k in
          if decide (0 ≤ i) then game_history !! Z.to_nat i else None)
       (seq 0 (length game_history + Z.to_nat (1 - player_position))).

Definition train_spec (game_history : list (string * Move))
    (player_position winner_position : Z) : M unit :=
  for_each (own_pairs game_history player_position)
    (λ '(state, move),
       adjust (if decide (player_position = winner_position)
               then reward else punish) state move);;
  save_model.

Definition weight_at (me : Menace.t) (state : string) (move : Move) : option Z :=
  (λ matchbox, get_beads matchbox move) <$> dict_get (matchboxes me) state.

Definition keys_at (me : Menace.t) (state : string) : option (list Move) :=
  (λ matchbox, dict_keys (moves_and_beads matchbox))
    <$> dict_get (matchboxes me) state.

(** Two stages of an agent that differ at most in the weights of the given
    (state, move) pairs. *)
Definition unchanged_outside (pairs : list (string * Move))
    (me me' : Menace.t) : Prop :=
  (∀ state move, (state, move) ∉ pairs →
     weight_at me' state move = weight_at me state move) ∧
  (∀ state, keys_at me' state = keys_at me state) ∧
  dict_keys (matchboxes me') = dict_keys (matchboxes me) ∧
  with_matchboxes me' [] = with_matchboxes me [].


(** *** Construction, step by step

    [fresh_into] is the table the loop of [create_model] builds on top of
    the one it finds, [load_into] what the loop of [import_model] makes of
    it: the outcome of the loop and the table at its end. *)
Definition fresh_into (table : dict string (list Move)) (initial_beads : Z)
    (mbs : dict string Matchbox.t) : dict string Matchbox.t :=
  foldl (λ mbs '(state, moves),
           dict_set mbs state (Matchbox.mk state (fresh_beads moves initial_beads)))
        mbs table.

Definition fresh_table (table : dict string (list Move)) (initial_beads : Z)
  : dict string Matchbox.t :=
  fresh_into table initial_beads [].

Fixpoint load_into (model_json : model_json) (mbs : dict string Matchbox.t)
  : result unit * dict string Matchbox.t :=
  match model_json with
  | [] => (Ok tt, mbs)
  | (state_str, moves_list) :: rest =>
      match load_moves moves_list [] with
      | Ok moves_and_beads =>
          load_into rest (dict_set mbs state_str
                            (Matchbox.mk state_str moves_and_beads))
      | Raise e => (Raise e, mbs)
      end
  end.

(** Every weight of every matchbox satisfies [P]; every record of a model
    file does. *)
Definition all_weights (P : Z → Prop) (mbs : dict string Matchbox.t) : Prop :=
  Forall (λ matchbox, Forall P (dict_values (moves_and_beads matchbox)))
         (dict_values mbs).

Definition all_beads (P : Z → Prop) (model_json : model_json) : Prop :=
  Forall (λ moves_list, Forall (λ item, P (beads item)) moves_list)
         (dict_values model_json).

(** The moves the model file can hold and give back: a pair of pairs of
    integers or strings. *)
Definition atomic (v : PyVal) : bool :=
  match v with
  | PInt _ | PStr _ => true
  | PTuple _ => false
  end.

Definition is_codec_move (move : Move) : bool :=
  match move with
  | PTuple [PTuple [from_row; from_col]; PTuple [to_row; to_col]] =>
      atomic from_row && atomic from_col && atomic to_row && atomic to_col
  | _ => false
  end.

Definition codec_table (table : dict string (list Move)) : Prop :=
  Forall (λ moves, Forall (λ move, is_codec_move move = true) moves)
         (dict_values table).

End Spec.

(** ** Concrete objects

    The spec's scenario, a matchbox for state [S0] with the moves [A] and
    [B] at three beads each, and a matchbox whose moves are pairs of board
    coordinates, as the model file stores them. *)

Module Examples.

Import Matchbox Calls.

Definition move_A : Move := PStr "A".
Definition move_B : Move := PStr "B".

Definition box_S0 : Matchbox.t := Matchbox.mk "S0" [(move_A, 3); (move_B, 3)].

Definition coords (from_row from_col to_row to_col : Z) : Move :=
  PTuple [PTuple [PInt from_row; PInt from_col];
          PTuple [PInt to_row; PInt to_col]].

Definition box_coords : Matchbox.t :=
  Matchbox.mk "b0" [(coords 2 0 1 0, 1); (coords 2 1 1 1, 15); (coords 2 2 1 2, 3)].

Definition some_calls : list call :=
  [Punish (coords 2 0 1 0); Reward (coords 2 1 1 1); Punish (coords 2 2 1 2);
   Punish (coords 2 2 1 2); Punish (coords 2 2 1 2); Reward (coords 2 0 1 0)].

(** The scenario's agent: player 1 of a game whose only state is [S0]. *)
Definition agent_S0 : Menace.t :=
  Menace.mk (Some 1) "game" None "models/game_player1_menace_model.json"
    [("S0", box_S0)].

Definition world_S0 : Menace.world := Menace.World agent_S0 ∅.

(** An agent over coordinate moves, with a state [end] that has no legal
    move. *)
Definition agent_coords : Menace.t :=
  Menace.mk (Some 1) "game" None "models/game_player1_menace_model.json"
    [("b0", box_coords); ("end", Matchbox.mk "end" [])].

Definition world_coords : Menace.world := Menace.World agent_coords ∅.

(** A game in which the agent moved first and third, and one in which its
    second move was made from a state it has no matchbox for. *)
Definition history_coords : list (string * Move) :=
  [("b0", coords 2 2 1 2); ("w0", coords 0 0 1 0); ("b0", coords 2 0 1 0)].

Definition history_unknown : list (string * Move) :=
  [("b0", coords 2 2 1 2); ("w0", coords 0 0 1 0); ("gone", coords 2 0 1 0);
   ("w1", coords 0 1 1 1); ("b0", coords 2 1 1 1)].

(** [world_coords] after a reward of the first move of [history_unknown]. *)
Definition world_coords_rewarded_once : Menace.world :=
  Menace.World
    (Menace.with_matchboxes agent_coords
       [("b0", Matchbox.mk "b0" [(coords 2 0 1 0, 1); (coords 2 1 1 1, 15);
                                 (coords 2 2 1 2, 4)]);
        ("end", Matchbox.mk "end" [])])
    ∅.


(** A table of states and moves, the directory of the program, and a file
    store that holds a model for player 1 of [game]. *)
Definition table_coords : dict string (list Move) :=
  [("b0", [coords 2 0 1 0; coords 2 1 1 1; coords 2 0 1 0]); ("end", [])].

Definition base_dir : string := "/srv/menace".

Definition stored_model : model_json :=
  [("b7", [mk_record ((JInt 1, JInt 0), (JInt 0, JInt 0)) 5;
           mk_record ((JInt 1, JInt 1), (JInt 0, JInt 1)) 1])].

Definition files_with_model : FS :=
  {[ "/srv/menace/models/game_player1_menace_model.json" := stored_model ]}.

(** The agent [Menace(player_position=1, game_name='game',
    states_and_moves=table_coords)] is, when there is no model file yet. *)
Definition agent_built : Menace.t :=
  Menace.mk (Some 1) "game" (Some table_coords)
    "/srv/menace/models/game_player1_menace_model.json"
    [("b0", Matchbox.mk "b0" [(coords 2 0 1 0, 3); (coords 2 1 1 1, 3)]);
     ("end", Matchbox.mk "end" [])].


(** A model file whose second state holds a record with a nested list. *)
Definition broken_model : model_json :=
  [("b7", [mk_record ((JInt 1, JInt 0), (JInt 0, JInt 0)) 5]);
   ("b8", [mk_record ((JList [JInt 1], JInt 1), (JInt 0, JInt 1)) 2]);
   ("b9", [mk_record ((JInt 2, JInt 2), (JInt 1, JInt 2)) 4])].

Definition files_with_broken_model : FS :=
  {[ "/srv/menace/models/game_player1_menace_model.json" := broken_model ]}.


(** A game in which the agent made the same move from the same state
    twice. *)
Definition history_twice : list (string * Move) :=
  [("b0", coords 2 2 1 2); ("w0", coords 0 0 1 0); ("b0", coords 2 2 1 2)].

(** A game of the agent [agent_built]. *)
Definition history_built : list (string * Move) :=
  [("b0", coords 2 0 1 0); ("w0", coords 0 0 1 0); ("b0", coords 2 1 1 1)].

(** Values of [random()]: 0.5, the float 0.3, and the largest float below
    two thirds. *)
Definition one_half : Float.t := Float.Finite 1 (-1).
Definition three_tenths : Float.t := Float.Finite 5404319552844595 (-54).
Definition below_two_thirds : Float.t := Float.Finite 6004799503160661 (-53).

(** A matchbox as a model file can give it, with a weight beyond the range
    of floats, and one whose first move weighs twice the second. *)
Definition box_heavy : Matchbox.t :=
  Matchbox.mk "b0" [(coords 2 0 1 0, 10 ^ 400)].

Definition box_two_one : Matchbox.t :=
  Matchbox.mk "b0" [(coords 2 0 1 0, 2); (coords 2 1 1 1, 1)].

(** The table of the scenario: the state [S0] with the moves [A] and [B]. *)
Definition table_S0 : dict string (list Move) := [("S0", [move_A; move_B])].

End Examples.

(** ** Shapes of tables and files

    [storable] tables are those a model file can hold and give back: the
    states are distinct, every matchbox carries the name of its state, its
    moves are distinct and each is a pair of pairs of integers or strings.
    [plain_json] files are those [save_model] writes for them: distinct
    states, and per state distinct moves without nested lists. *)

Module Shape.

Import Matchbox Menace Spec.

Definition sum_list (ws : list Z) : Z := foldr Z.add 0 ws.

Definition storable_box (entry : string * Matchbox.t) : Prop :=
  state entry.2 = entry.1 ∧
  NoDup (dict_keys (moves_and_beads entry.2)) ∧
  Forall (λ move, is_codec_move move = true) (dict_keys (moves_and_beads entry.2)).

Definition storable (mbs : dict string Matchbox.t) : Prop :=
  NoDup (dict_keys mbs) ∧ Forall storable_box (dict_items mbs).

Definition plain (j : JVal) : bool :=
  match j with
  | JInt _ | JStr _ => true
  | JList _ => false
  end.

Definition plain_record (item : move_record) : bool :=
  let '((from_row, from_col), (to_row, to_col)) := move item in
  plain from_row && plain from_col && plain to_row && plain to_col.

Definition plain_json (model_json : model_json) : Prop :=
  NoDup (dict_keys model_json) ∧
  Forall (λ moves_list,
            NoDup (move <$> moves_list) ∧
            Forall (λ item, plain_record item = true) moves_list)
         (dict_values model_json).

(** How often a pair occurs among the pairs of a game. *)
Definition occurrences (pair : string * Move) (pairs : list (string * Move)) : nat :=
  length (filter (λ p, p = pair) pairs).

(** Every pair names a state the agent has a matchbox for and a move that
    matchbox holds. *)
Definition adjustable (me : Menace.t) (pairs : list (string * Move)) : Prop :=
  Forall (λ pair, ∃ moves, keys_at me pair.1 = Some moves ∧ pair.2 ∈ moves) pairs.


(** The world after a series of reported games, each with its history, the
    agent's position and the winner's, whether the reports raised or not. *)
Definition report_all (games : list (list (string * Move) * Z * Z))
    (wd : world) : world :=
  foldl (λ wd '(game_history, player_position, winner_position),
           (game_report game_history player_position winner_position wd).2)
        wd games.

End Shape.

(** * Properties *)

(** ** Dictionaries *)

Section dict_facts.
Context {K V : Type} `{EqDecision K}.
Implicit Types (d : dict K V) (k : K) (v : V).

Lemma dict_get_set_eq d k v : dict_get (dict_set d k v) k = Some v.
Proof.
  induction d as [|[k' v'] d IH]; simpl.
  - by rewrite decide_True.
  - destruct (decide (k' = k)) as [->|Hne]; simpl.
    + by rewrite decide_True.
    + by rewrite decide_False.
Qed.

Lemma dict_get_set_ne d k k' v :
  k ≠ k' → dict_get (dict_set d k v) k' = dict_get d k'.
Proof.
  intros Hne. induction d as [|[k0 v0] d IH]; simpl.
  - by rewrite decide_False.
  - destruct (decide (k0 = k)) as [->|Hne0]; simpl.
    + by rewrite !decide_False.
    + by rewrite IH.
Qed.

Lemma dict_get_is_Some d k : is_Some (dict_get d k) ↔ k ∈ dict_keys d.
Proof.
  unfold dict_keys. induction d as [|[k' v'] d IH]; simpl.
  - split; [intros [? [=]] | intros Hin; inversion Hin].
  - destruct (decide (k' = k)) as [->|Hne].
    + split; [intros _; left | eauto].
    + rewrite IH. split; [by right|].
      intros Hin. inversion Hin; by subst.
Qed.

Lemma dict_get_None d k : dict_get d k = None ↔ k ∉ dict_keys d.
Proof. rewrite <- dict_get_is_Some, eq_None_not_Some. done. Qed.

Lemma dict_get_Some_items d k v : dict_get d k = Some v → (k, v) ∈ dict_items d.
Proof.
  unfold dict_items. induction d as [|[k' v'] d IH]; simpl; [done|].
  destruct (decide (k' = k)) as [->|Hne].
  - intros [= ->]. left.
  - intros Hget. right. by apply IH.
Qed.

Lemma dict_items_get d k v :
  NoDup (dict_keys d) → (k, v) ∈ dict_items d → dict_get d k = Some v.
Proof.
  unfold dict_keys, dict_items. induction d as [|[k' v'] d IH]; simpl.
  - intros _ Hin. inversion Hin.
  - intros Hnd Hin. apply NoDup_cons in Hnd as [Hnotin Hnd].
    apply elem_of_cons in Hin as [[= -> ->]|Hin].
    + by rewrite decide_True.
    + rewrite decide_False; [by apply IH|].
      intros ->. apply Hnotin. by apply (list_elem_of_fmap_2 fst) in Hin.
Qed.

(** Assignment to a key that is present changes no key. *)
Lemma dict_keys_set_present d k v :
  is_Some (dict_get d k) → dict_keys (dict_set d k v) = dict_keys d.
Proof.
  unfold dict_keys. induction d as [|[k' v'] d IH]; csimpl.
  - intros [? [=]].
  - destruct (decide (k' = k)) as [->|Hne]; csimpl; [done|].
    intros Hsome. f_equal. by apply IH.
Qed.

(** Assignment to a new key appends it. *)
Lemma dict_set_absent d k v :
  dict_get d k = None → dict_set d k v = d ++ [(k, v)].
Proof.
  induction d as [|[k' v'] d IH]; simpl; [done|].
  destruct (decide (k' = k)); [done|]. intros Hnone. by rewrite IH.
Qed.

(** Storing what is already stored changes nothing. *)
Lemma dict_set_id d k v : dict_get d k = Some v → dict_set d k v = d.
Proof.
  induction d as [|[k' v'] d IH]; simpl; [done|].
  destruct (decide (k' = k)) as [->|Hne].
  - by intros [= ->].
  - intros Hget. by rewrite IH.
Qed.

Lemma dict_set_NoDup d k v :
  NoDup (dict_keys d) → NoDup (dict_keys (dict_set d k v)).
Proof.
  intros Hnd. destruct (dict_get d k) as [v0|] eqn:Hget.
  - by rewrite dict_keys_set_present.
  - rewrite dict_set_absent by done. unfold dict_keys in *.
    rewrite fmap_app. apply NoDup_app. split_and!; [done| |apply NoDup_singleton].
    intros k' Hin Hin'. apply list_elem_of_singleton in Hin' as ->.
    by apply dict_get_None in Hget.
Qed.

(** The values after an assignment are the old ones or the new one. *)
Lemma dict_values_set_Forall (P : V → Prop) d k v :
  Forall P (dict_values d) → P v → Forall P (dict_values (dict_set d k v)).
Proof.
  unfold dict_values. intros Hall Hv.
  induction d as [|[k' v'] d IH]; csimpl in *.
  - by constructor.
  - apply Forall_cons in Hall as [Hv' Hall].
    destruct (decide (k' = k)); csimpl; constructor; auto.
Qed.

(** Every item after an assignment is an old item or the new one. *)
Lemma dict_items_set_Forall (Q : K * V → Prop) d k v :
  Forall Q (dict_items d) → Q (k, v) → Forall Q (dict_items (dict_set d k v)).
Proof.
  unfold dict_items. intros Hall Hkv.
  induction d as [|[k' v'] d IH]; simpl.
  - by constructor.
  - apply Forall_cons in Hall as [Hkv' Hall].
    destruct (decide (k' = k)) as [->|Hne]; constructor; auto.
Qed.

Lemma dict_keys_set_elem d k v k' :
  k' ∈ dict_keys (dict_set d k v) ↔ k' = k ∨ k' ∈ dict_keys d.
Proof.
  destruct (dict_get d k) as [v0|] eqn:Hget.
  - rewrite dict_keys_set_present by by rewrite Hget.
    split; [by right|]. intros [->|Hin]; [|done].
    apply dict_get_is_Some. by rewrite Hget.
  - rewrite dict_set_absent by done. unfold dict_keys.
    rewrite fmap_app, elem_of_app. simpl. rewrite list_elem_of_singleton. tauto.
Qed.

(** Rebuilding a dictionary from its items, one assignment each, gives the
    dictionary back. *)
Lemma dict_rebuild (acc items : dict K V) :
  NoDup (dict_keys (acc ++ items)) →
  foldl (λ d '(k, v), dict_set d k v) acc items = acc ++ items.
Proof.
  revert acc. induction items as [|[k v] items IH]; intros acc Hnd; simpl.
  - by rewrite app_nil_r.
  - assert (Hnone : dict_get acc k = None).
    { apply dict_get_None. intros Hin. unfold dict_keys in *.
      rewrite fmap_app in Hnd. apply NoDup_app in Hnd as (_ & Hdisj & _).
      apply (Hdisj k Hin). simpl. left. }
    rewrite dict_set_absent by done.
    rewrite IH; rewrite <- app_assoc; done.
Qed.
End dict_facts.

(** ** Matchbox *)

Section matchbox_facts.
Import Matchbox Calls.
Implicit Types (self : Matchbox.t) (move : Move) (change beads : Z).

Lemma clamp_in_bounds beads : in_bounds (Z.min (Z.max min_beads beads) max_beads).
Proof. unfold in_bounds, min_beads, max_beads. lia. Qed.

Lemma set_beads_present self move change beads :
  dict_get (moves_and_beads self) move = Some beads →
  _set_beads self move change =
    Ok (Matchbox.mk (state self)
          (dict_set (moves_and_beads self) move
             (Z.min (Z.max min_beads (beads + change)) max_beads))).
Proof. unfold _set_beads. by intros ->. Qed.

Lemma set_beads_absent self move change :
  move ∉ dict_keys (moves_and_beads self) →
  _set_beads self move change = Raise (KeyError move).
Proof. intros Hnotin%dict_get_None. unfold _set_beads. by rewrite Hnotin. Qed.

Lemma set_beads_Ok_inv self move change self' :
  _set_beads self move change = Ok self' →
  ∃ beads, dict_get (moves_and_beads self) move = Some beads ∧
    self' = Matchbox.mk (state self)
              (dict_set (moves_and_beads self) move
                 (Z.min (Z.max min_beads (beads + change)) max_beads)).
Proof.
  unfold _set_beads. destruct (dict_get _ _) as [beads|]; [|done].
  intros [= <-]. eauto.
Qed.

Lemma set_beads_keys self move change self' :
  _set_beads self move change = Ok self' →
  dict_keys (moves_and_beads self') = dict_keys (moves_and_beads self) ∧
  state self' = state self.
Proof.
  intros (beads & Hget & ->)%set_beads_Ok_inv. simpl. split; [|done].
  apply dict_keys_set_present. by rewrite Hget.
Qed.

Lemma perform_unfold self c :
  perform self c =
    _set_beads self (call_move c)
      match c with Reward _ => 1 | Punish _ => -1 end.
Proof. by destruct c. Qed.

Lemma get_beads_in_values self move :
  move ∈ dict_keys (moves_and_beads self) →
  get_beads self move ∈ dict_values (moves_and_beads self).
Proof.
  intros [beads Hget]%dict_get_is_Some. unfold get_beads. rewrite Hget. simpl.
  apply dict_get_Some_items in Hget.
  by apply (list_elem_of_fmap_2 snd) in Hget.
Qed.

(** The object left by any calls, raising or not, has the keys it had. *)
Lemma after_all_keys self cs :
  dict_keys (moves_and_beads (after_all self cs))
    = dict_keys (moves_and_beads self).
Proof.
  unfold after_all. revert self.
  induction cs as [|c cs IH]; intros self; simpl; [done|].
  rewrite IH. unfold after. rewrite perform_unfold.
  destruct (_set_beads _ _ _) as [self'|e] eqn:Hset; [|done].
  by apply set_beads_keys in Hset as [-> _].
Qed.

(** C1.  [from_dict] never accepts what [to_dict] produces: [to_dict]
    files the table under the name [moves], [from_dict] asks for
    [moves_and_beads], so for every matchbox the composition raises
    [KeyError] instead of returning the matchbox. *)
Theorem from_dict_to_dict_raises self :
  from_dict (to_dict self) = Raise (KeyError (PStr "moves_and_beads")).
Proof. reflexivity. Qed.

(** C2.  A matchbox whose weights all lie between 1 and 15 runs any
    sequence of [reward] and [punish] calls on moves of its key set
    without raising, and all its weights still lie between 1 and 15
    afterwards. *)
Theorem reward_punish_keep_bounds self cs :
  weights_in_bounds self →
  Forall (λ c, call_move c ∈ dict_keys (moves_and_beads self)) cs →
  ∃ self', perform_all self cs = Ok self' ∧
    weights_in_bounds self' ∧
    ∀ move, move ∈ dict_keys (moves_and_beads self) →
            1 ≤ get_beads self' move ≤ 15.
Proof.
  intros Hbounds Hcalls.
  assert (∃ self', perform_all self cs = Ok self' ∧ weights_in_bounds self' ∧
            dict_keys (moves_and_beads self')
              = dict_keys (moves_and_beads self)) as (self' & Hrun & Hb & Hk).
  { revert self Hbounds Hcalls.
    induction cs as [|c cs IH]; intros self Hbounds Hcalls; simpl.
    - by exists self.
    - apply Forall_cons in Hcalls as [[beads Hget]%dict_get_is_Some Hcalls].
      rewrite perform_unfold, (set_beads_present _ _ _ beads Hget). simpl.
      set (self1 := Matchbox.mk _ _).
      assert (Hkeys1 : dict_keys (moves_and_beads self1)
                       = dict_keys (moves_and_beads self)).
      { apply dict_keys_set_present. by rewrite Hget. }
      destruct (IH self1) as (self' & Hrun & Hb & Hk).
      + apply dict_values_set_Forall; [done | apply clamp_in_bounds].
      + by rewrite Hkeys1.
      + exists self'. by rewrite Hrun, Hk, Hkeys1. }
  exists self'. split_and!; [done..|].
  intros move Hin. rewrite <- Hk in Hin.
  apply get_beads_in_values in Hin.
  unfold weights_in_bounds in Hb. rewrite Forall_forall in Hb.
  exact (Hb _ Hin).
Qed.

Lemma reward_punish_keep_bounds_witness :
  ∃ self', perform_all Examples.box_coords Examples.some_calls = Ok self' ∧
    weights_in_bounds self' ∧
    ∀ move, move ∈ dict_keys (moves_and_beads Examples.box_coords) →
            1 ≤ get_beads self' move ≤ 15.
Proof.
  apply (reward_punish_keep_bounds Examples.box_coords Examples.some_calls).
  - repeat constructor; vm_compute; discriminate.
  - repeat first [apply Forall_nil_2 | apply Forall_cons_2]; compute_done.
Defined.

(** C3.  On a move whose weight is 1, [punish] returns without raising
    and leaves the matchbox as it was, so the weight stays 1; on a move
    whose weight is 15, [reward] does the same and the weight stays 15. *)
Theorem punish_at_floor_reward_at_ceiling self move :
  (get_beads self move = 1 →
     punish self move = Ok self ∧
     ∀ self', punish self move = Ok self' → get_beads self' move = 1) ∧
  (get_beads self move = 15 →
     reward self move = Ok self ∧
     ∀ self', reward self move = Ok self' → get_beads self' move = 15).
Proof.
  assert (Hfix : ∀ change beads,
            get_beads self move = beads → beads ≠ -1 →
            Z.min (Z.max min_beads (beads + change)) max_beads = beads →
            _set_beads self move change = Ok self).
  { intros change beads Hbeads Hne Hclamp. unfold get_beads in Hbeads.
    destruct (dict_get (moves_and_beads self) move) as [b|] eqn:Hget;
      simpl in Hbeads; [subst b | congruence].
    rewrite (set_beads_present _ _ _ beads Hget), Hclamp.
    rewrite dict_set_id by done. by destruct self. }
  split; intros Hbeads.
  - assert (Hrun : punish self move = Ok self) by by apply (Hfix _ 1).
    split; [done|]. intros self'. rewrite Hrun. by intros [= <-].
  - assert (Hrun : reward self move = Ok self) by by apply (Hfix _ 15).
    split; [done|]. intros self'. rewrite Hrun. by intros [= <-].
Qed.

Lemma punish_at_floor_reward_at_ceiling_witness :
  (punish Examples.box_coords (Examples.coords 2 0 1 0) = Ok Examples.box_coords ∧
   ∀ self', punish Examples.box_coords (Examples.coords 2 0 1 0) = Ok self' →
            get_beads self' (Examples.coords 2 0 1 0) = 1) ∧
  (reward Examples.box_coords (Examples.coords 2 1 1 1) = Ok Examples.box_coords ∧
   ∀ self', reward Examples.box_coords (Examples.coords 2 1 1 1) = Ok self' →
            get_beads self' (Examples.coords 2 1 1 1) = 15).
Proof.
  split.
  - apply (punish_at_floor_reward_at_ceiling Examples.box_coords
             (Examples.coords 2 0 1 0)). reflexivity.
  - apply (punish_at_floor_reward_at_ceiling Examples.box_coords
             (Examples.coords 2 1 1 1)). reflexivity.
Defined.

(** C4.  [get_beads] is a read: it returns a number and has no other
    effect.  For a value that is not a key of the table the number is the
    sentinel -1; for a key it is the weight the table holds for it. *)
Theorem get_beads_sentinel_or_weight self move :
  (move ∉ dict_keys (moves_and_beads self) → get_beads self move = -1) ∧
  (move ∈ dict_keys (moves_and_beads self) →
     (move, get_beads self move) ∈ dict_items (moves_and_beads self)) ∧
  (∀ beads, NoDup (dict_keys (moves_and_beads self)) →
     (move, beads) ∈ dict_items (moves_and_beads self) →
     get_beads self move = beads).
Proof.
  unfold get_beads. split_and!.
  - by intros ->%dict_get_None.
  - intros [beads Hget]%dict_get_is_Some. rewrite Hget. simpl.
    by apply dict_get_Some_items.
  - intros beads Hnd Hin. by rewrite (dict_items_get _ _ _ Hnd Hin).
Qed.

Lemma get_beads_sentinel_or_weight_witness :
  get_beads Examples.box_S0 (PStr "C") = -1 ∧
  (Examples.move_B, get_beads Examples.box_S0 Examples.move_B)
    ∈ dict_items (moves_and_beads Examples.box_S0) ∧
  get_beads Examples.box_S0 Examples.move_B = 3.
Proof.
  pose proof (get_beads_sentinel_or_weight Examples.box_S0 (PStr "C"))
    as (Hmiss & _ & _).
  pose proof (get_beads_sentinel_or_weight Examples.box_S0 Examples.move_B)
    as (_ & Hhit & Hval).
  split_and!.
  - apply Hmiss. compute_done.
  - apply Hhit. compute_done.
  - apply Hval; compute_done.
Defined.

(** C5.  On a value that is not a key of the table, [_set_beads], and so
    [reward] and [punish], raise [KeyError] and return no changed object;
    a call that returns leaves the list of keys (and the state name) as it
    was; and so does every sequence of calls, raising or not. *)
Theorem set_beads_missing_move_raises_keys_fixed self move :
  (move ∉ dict_keys (moves_and_beads self) →
     (∀ change, _set_beads self move change = Raise (KeyError move)) ∧
     reward self move = Raise (KeyError move) ∧
     punish self move = Raise (KeyError move)) ∧
  (∀ change self', _set_beads self move change = Ok self' →
     dict_keys (moves_and_beads self') = dict_keys (moves_and_beads self) ∧
     state self' = state self) ∧
  (∀ cs, dict_keys (moves_and_beads (after_all self cs))
           = dict_keys (moves_and_beads self)).
Proof.
  split_and!.
  - intros Hnotin. unfold reward, punish.
    split_and!; [intros change|..]; by apply set_beads_absent.
  - intros change self'. apply set_beads_keys.
  - apply after_all_keys.
Qed.

Lemma set_beads_missing_move_raises_keys_fixed_witness :
  ((∀ change, _set_beads Examples.box_S0 (PStr "C") change
              = Raise (KeyError (PStr "C"))) ∧
   reward Examples.box_S0 (PStr "C") = Raise (KeyError (PStr "C")) ∧
   punish Examples.box_S0 (PStr "C") = Raise (KeyError (PStr "C"))) ∧
  dict_keys (moves_and_beads
               (after_all Examples.box_S0
                  [Reward (PStr "C"); Punish Examples.move_A]))
    = [Examples.move_A; Examples.move_B].
Proof.
  pose proof (set_beads_missing_move_raises_keys_fixed Examples.box_S0 (PStr "C"))
    as (Hmiss & _ & Hkeys).
  split.
  - apply Hmiss. compute_done.
  - rewrite Hkeys. reflexivity.
Defined.
End matchbox_facts.

(** ** Slices *)

Section slice_facts.
Context {A : Type}.
Implicit Types (l : list A) (p : Z).

Lemma stride2_cons x l : stride2 (x :: l) = x :: stride2 (drop 1 l).
Proof. by destruct l. Qed.

Lemma omap_ext_fun {B C} (f g : B → option C) (l : list B) :
  (∀ x, f x = g x) → omap f l = omap g l.
Proof.
  intros Hfg. induction l as [|x l IH]; [done|].
  csimpl. by rewrite Hfg, IH.
Qed.

(** Reading every second position from [start] on is [stride2] of the
    list without its first [start] items. *)
Lemma omap_stride2 l start j n :
  (length l ≤ start + 2 * (j + n))%nat →
  omap (λ k : nat, l !! (start + 2 * k)%nat) (seq j n)
    = stride2 (drop (start + 2 * j) l).
Proof.
  revert j. induction n as [|n IH]; intros j Hlen.
  - simpl. rewrite drop_ge by lia. done.
  - change (seq j (S n)) with (j :: seq (S j) n). csimpl.
    change (j + (j + 0))%nat with (2 * j)%nat.
    rewrite IH by lia.
    destruct (l !! (start + 2 * j)%nat) as [x|] eqn:Hx.
    + rewrite (drop_S _ _ _ Hx), stride2_cons, drop_drop.
      do 3 f_equal. lia.
    + apply lookup_ge_None in Hx. by rewrite !drop_ge by lia.
Qed.

Lemma slice_from_step2_nonneg l (start : Z) :
  0 ≤ start → slice_from_step2 l start = stride2 (drop (Z.to_nat start) l).
Proof.
  intros Hstart. unfold slice_from_step2, slice_start.
  destruct (Z.ltb_spec start 0) as [?|_]; [lia|].
  destruct (decide (start ≤ Z.of_nat (length l))) as [Hle|Hgt].
  - by rewrite Z.min_l by done.
  - rewrite Z.min_r by lia. rewrite Nat2Z.id. by rewrite !drop_ge by lia.
Qed.

(** For a position counted from 1, the slice the code takes holds the
    items at the positions the specification names. *)
Lemma slice_is_own_pairs l p :
  1 ≤ p → slice_from_step2 l (p - 1) = Spec.own_pairs l p.
Proof.
  intros Hp. rewrite slice_from_step2_nonneg by lia. unfold Spec.own_pairs.
  replace (Z.to_nat (1 - p)) with 0%nat by lia.
  rewrite (omap_ext_fun _ (λ k : nat, l !! (Z.to_nat (p - 1) + 2 * k)%nat)).
  - rewrite omap_stride2 by lia. do 2 f_equal. lia.
  - intros k. simpl. rewrite decide_True by lia. f_equal. lia.
Qed.

Lemma slice_lookup l p (k : nat) :
  1 ≤ p → slice_from_step2 l (p - 1) !! k = l !! (Z.to_nat (p - 1) + 2 * k)%nat.
Proof.
  intros Hp. rewrite slice_from_step2_nonneg by lia.
  generalize (Z.to_nat (p - 1)). clear p Hp. intros start.
  revert start l. induction k as [|k IH]; intros start l.
  - rewrite Nat.mul_0_r, Nat.add_0_r.
    destruct (l !! start) as [x|] eqn:Hx.
    + by rewrite (drop_S _ _ _ Hx).
    + apply lookup_ge_None in Hx. by rewrite drop_ge by lia.
  - destruct (l !! start) as [x|] eqn:Hx.
    + rewrite (drop_S _ _ _ Hx), stride2_cons, drop_drop. simpl.
      rewrite IH. f_equal. lia.
    + apply lookup_ge_None in Hx. rewrite drop_ge by lia. simpl.
      symmetry. apply lookup_ge_None. lia.
Qed.
End slice_facts.

(** ** The agent: running method bodies *)

Section run_facts.
Import Matchbox Menace Spec.
Implicit Types (wd : world) (me : Menace.t) (state : string) (move : Move).

Lemma bind_run {A B} (m : M A) (k : A → M B) wd :
  (m ≫= k) wd = match m wd with
                | (Ok a, wd') => k a wd'
                | (Raise e, wd') => (Raise e, wd')
                end.
Proof. reflexivity. Qed.

Lemma for_each_app {A} (l1 l2 : list A) (body : A → M unit) wd :
  for_each (l1 ++ l2) body wd =
    match for_each l1 body wd with
    | (Ok _, wd1) => for_each l2 body wd1
    | (Raise e, wd1) => (Raise e, wd1)
    end.
Proof.
  revert wd. induction l1 as [|x l1 IH]; intros wd; simpl; [done|].
  rewrite !bind_run. destruct (body x wd) as [[[]|e] wd1]; [apply IH | done].
Qed.

Lemma adjust_run op state move wd :
  adjust op state move wd =
    match dict_get (matchboxes (self wd)) state with
    | None => (Raise (KeyError (PStr state)), wd)
    | Some matchbox =>
        match op matchbox move with
        | Ok matchbox' =>
            (Ok tt,
             World (with_matchboxes (self wd)
                      (dict_set (matchboxes (self wd)) state matchbox'))
                   (files wd))
        | Raise e => (Raise e, wd)
        end
    end.
Proof.
  unfold adjust. rewrite bind_run. simpl.
  destruct (dict_get _ _) as [matchbox|]; [|done].
  rewrite bind_run. unfold lift. by destruct (op matchbox move).
Qed.

Lemma save_model_run wd :
  save_model wd =
    match dump_matchboxes (dict_items (matchboxes (self wd))) [] with
    | Ok model_json =>
        (Ok tt,
         World (self wd) (<[model_path (self wd) := model_json]> (files wd)))
    | Raise e => (Raise e, wd)
    end.
Proof.
  unfold save_model. rewrite bind_run. simpl. rewrite bind_run. unfold lift.
  by destruct (dump_matchboxes _ _).
Qed.

Lemma unchanged_outside_refl pairs me : unchanged_outside pairs me me.
Proof. by repeat split. Qed.

Lemma unchanged_outside_trans pairs me1 me2 me3 :
  unchanged_outside pairs me1 me2 → unchanged_outside pairs me2 me3 →
  unchanged_outside pairs me1 me3.
Proof.
  intros (Hw1 & Hk1 & Hs1 & Hf1) (Hw2 & Hk2 & Hs2 & Hf2). split_and!.
  - intros state move Hnotin. by rewrite Hw2, Hw1.
  - intros state. by rewrite Hk2, Hk1.
  - by rewrite Hs2, Hs1.
  - by rewrite Hf2, Hf1.
Qed.

Lemma unchanged_outside_weaken pairs pairs' me me' :
  pairs ⊆ pairs' → unchanged_outside pairs me me' →
  unchanged_outside pairs' me me'.
Proof.
  intros Hsub (Hw & Hk & Hs & Hf). split_and!; [|done..].
  intros state move Hnotin. apply Hw. intros Hin. by apply Hnotin, Hsub.
Qed.

(** One adjustment changes at most the weight of its own pair. *)
Lemma adjust_frame change state move wd :
  let res := adjust (λ matchbox m, _set_beads matchbox m change) state move wd in
  files res.2 = files wd ∧
  unchanged_outside [(state, move)] (self wd) (self res.2).
Proof.
  simpl. rewrite adjust_run.
  destruct (dict_get (matchboxes (self wd)) state) as [matchbox|] eqn:Hget;
    [|split; [done | apply unchanged_outside_refl]].
  destruct (_set_beads matchbox move change) as [matchbox'|e] eqn:Hset;
    [|split; [done | apply unchanged_outside_refl]].
  simpl. split; [done|].
  pose proof (set_beads_keys _ _ _ _ Hset) as [Hkeys _].
  apply set_beads_Ok_inv in Hset as (beads & Hbeads & ->).
  unfold unchanged_outside, weight_at, keys_at. simpl. split_and!.
  - intros state0 move0 Hnotin.
    destruct (decide (state = state0)) as [<-|Hne].
    + rewrite dict_get_set_eq, Hget. simpl. f_equal. unfold get_beads. simpl.
      rewrite dict_get_set_ne; [done|].
      intros <-. apply Hnotin. by left.
    + by rewrite dict_get_set_ne.
  - intros state0. destruct (decide (state = state0)) as [<-|Hne].
    + rewrite dict_get_set_eq, Hget. simpl. f_equal. exact Hkeys.
    + by rewrite dict_get_set_ne.
  - apply dict_keys_set_present. by rewrite Hget.
  - done.
Qed.

Lemma for_each_adjust_frame change pairs wd :
  let res := for_each pairs
               (λ '(state, move),
                  adjust (λ matchbox m, _set_beads matchbox m change) state move)
               wd in
  files res.2 = files wd ∧ unchanged_outside pairs (self wd) (self res.2).
Proof.
  simpl. revert wd. induction pairs as [|[state move] pairs IH]; intros wd.
  - split; [done | apply unchanged_outside_refl].
  - simpl. rewrite bind_run.
    pose proof (adjust_frame change state move wd) as [Hfiles Hframe].
    simpl in Hfiles, Hframe.
    destruct (adjust _ state move wd) as [[[]|e] wd1]; simpl in *.
    + destruct (IH wd1) as [Hfiles' Hframe']. split; [congruence|].
      eapply unchanged_outside_trans.
      * eapply unchanged_outside_weaken; [|exact Hframe].
        intros pair ->%list_elem_of_singleton. by left.
      * eapply unchanged_outside_weaken; [|exact Hframe'].
        intros pair Hin. by right.
    + split; [done|].
      eapply unchanged_outside_weaken; [|exact Hframe].
      intros pair ->%list_elem_of_singleton. by left.
Qed.
End run_facts.

(** ** Training *)

Section train_facts.
Import Matchbox Menace Spec.
Implicit Types (wd : world) (me : Menace.t) (state : string) (move : Move).
Implicit Types (game_history : list (string * Move)).
Implicit Types (player_position winner_position : Z).

(** The two loops of [_train_model] are one loop over the slice whose
    adjustment is chosen by the outcome. *)
Lemma train_model_run game_history player_position winner_position wd :
  _train_model game_history player_position winner_position wd =
    match for_each (slice_from_step2 game_history (player_position - 1))
            (λ '(state, move),
               adjust (if decide (player_position = winner_position)
                       then reward else punish) state move) wd with
    | (Ok _, wd1) => save_model wd1
    | (Raise e, wd1) => (Raise e, wd1)
    end.
Proof.
  unfold _train_model. rewrite bind_run.
  by destruct (decide (player_position = winner_position)).
Qed.

Lemma train_model_frame_aux game_history player_position winner_position wd :
  let wd' := (_train_model game_history player_position winner_position wd).2 in
  unchanged_outside (slice_from_step2 game_history (player_position - 1))
    (self wd) (self wd').
Proof.
  simpl. rewrite train_model_run.
  set (pairs := slice_from_step2 _ _).
  assert (Hloop : ∃ change,
            for_each pairs
              (λ '(state, move),
                 adjust (if decide (player_position = winner_position)
                         then reward else punish) state move) wd
            = for_each pairs
                (λ '(state, move),
                   adjust (λ matchbox m, _set_beads matchbox m change) state move)
                wd).
  { destruct (decide (player_position = winner_position));
      [by exists 1 | by exists (-1)]. }
  destruct Hloop as [change ->].
  pose proof (for_each_adjust_frame change pairs wd) as [_ Hframe].
  simpl in Hframe.
  destruct (for_each pairs _ wd) as [[[]|e] wd1]; simpl in *; [|done].
  rewrite save_model_run. by destruct (dump_matchboxes _ _).
Qed.

(** C6, as the code has it.  For a player position counted from 1,
    [_train_model] takes from the history exactly the pairs at the
    positions [player_position - 1], [player_position - 1 + 2], ...; it
    runs as the specification's procedure does: each of these pairs is
    rewarded when the player is the winner and punished otherwise, the
    first adjustment that raises ends the call, and then [save_model] is
    called, which writes the whole table to the model file when every move
    of every matchbox unpacks as a pair of pairs and raises otherwise,
    writing nothing.  In the scenario, where the moves are the strings [A]
    and [B], the weight of [A] in the agent is 4 after a win and 2 after a
    loss, and that of [B] stays 3. *)
Theorem train_adjusts_own_pairs_then_saves :
  (∀ game_history player_position winner_position,
     1 ≤ player_position →
     (∀ k : nat,
        slice_from_step2 game_history (player_position - 1) !! k
          = game_history !! (Z.to_nat (player_position - 1) + 2 * k)%nat) ∧
     (∀ wd,
        _train_model game_history player_position winner_position wd
          = train_spec game_history player_position winner_position wd) ∧
     ∀ wd,
       _train_model game_history player_position winner_position wd =
         match for_each (own_pairs game_history player_position)
                 (λ '(state, move),
                    adjust (if decide (player_position = winner_position)
                            then reward else punish) state move) wd with
         | (Ok _, wd1) =>
             match dump_matchboxes (dict_items (matchboxes (self wd1))) [] with
             | Ok model_json =>
                 (Ok tt,
                  World (self wd1)
                    (<[model_path (self wd1) := model_json]> (files wd1)))
             | Raise e => (Raise e, wd1)
             end
         | (Raise e, wd1) => (Raise e, wd1)
         end) ∧
  (let after_win :=
     self (_train_model [("S0", Examples.move_A)] 1 1 Examples.world_S0).2 in
   let after_loss :=
     self (_train_model [("S0", Examples.move_A)] 1 2 Examples.world_S0).2 in
   weight_at Examples.agent_S0 "S0" Examples.move_A = Some 3 ∧
   weight_at Examples.agent_S0 "S0" Examples.move_B = Some 3 ∧
   weight_at after_win "S0" Examples.move_A = Some 4 ∧
   weight_at after_win "S0" Examples.move_B = Some 3 ∧
   weight_at after_loss "S0" Examples.move_A = Some 2 ∧
   weight_at after_loss "S0" Examples.move_B = Some 3).
Proof.
  split; [|by vm_compute].
  intros game_history player_position winner_position Hpos. split_and!.
  - intros k. by apply slice_lookup.
  - intros wd.
    rewrite train_model_run, slice_is_own_pairs by done.
    unfold train_spec. by rewrite bind_run.
  - intros wd. rewrite train_model_run, slice_is_own_pairs by done.
    destruct (for_each _ _ wd) as [[[]|e] wd1]; [|done].
    apply save_model_run.
Qed.

Lemma train_adjusts_own_pairs_then_saves_witness :
  (∀ k : nat,
     slice_from_step2 Examples.history_coords (1 - 1) !! k
       = Examples.history_coords !! (Z.to_nat (1 - 1) + 2 * k)%nat) ∧
  (∀ wd, _train_model Examples.history_coords 1 1 wd
         = train_spec Examples.history_coords 1 1 wd) ∧
  is_ok (_train_model Examples.history_coords 1 1 Examples.world_coords).1 = true.
Proof.
  destruct (proj1 train_adjusts_own_pairs_then_saves
              Examples.history_coords 1 1) as (Hext & Href & _); [lia|].
  split_and!; [exact Hext | exact Href | reflexivity].
Defined.

(** Where the claim of C6 fails.  In its own scenario the call raises
    [ValueError] inside [save_model], because the move [A] is a string and
    not a pair of pairs, and no file is written; the weight of [A] is 4
    all the same.  And at player position 0 the slice counts from the end
    of the history: the only pair of the history is rewarded although it
    is at none of the positions -1, 1, 3, ... *)
Lemma train_scenario_not_saved :
  _train_model [("S0", Examples.move_A)] 1 1 Examples.world_S0
    = (Raise ValueError,
       World (with_matchboxes Examples.agent_S0
                [("S0", Matchbox.mk "S0" [(Examples.move_A, 4);
                                          (Examples.move_B, 3)])])
             ∅) ∧
  own_pairs [("S0", Examples.move_A)] 0 = [] ∧
  weight_at
    (self (_train_model [("S0", Examples.move_A)] 0 0 Examples.world_S0).2)
    "S0" Examples.move_A = Some 4.
Proof. split_and!; reflexivity. Qed.

(** C7.  Whatever the history, the positions and the outcome of the call,
    [_train_model] leaves every weight unchanged whose (state, move) pair
    is not in the slice it takes from the history, leaves every matchbox
    with the keys it had, and leaves the agent with the states it had (and
    with its other attributes). *)
Theorem train_model_frame game_history player_position winner_position wd :
  let wd' := (_train_model game_history player_position winner_position wd).2 in
  (∀ state move,
     (state, move) ∉ slice_from_step2 game_history (player_position - 1) →
     weight_at (self wd') state move = weight_at (self wd) state move) ∧
  (∀ state, keys_at (self wd') state = keys_at (self wd) state) ∧
  dict_keys (matchboxes (self wd')) = dict_keys (matchboxes (self wd)) ∧
  with_matchboxes (self wd') [] = with_matchboxes (self wd) [].
Proof. apply train_model_frame_aux. Qed.

Lemma train_model_frame_witness :
  let wd' := (_train_model Examples.history_coords 1 2 Examples.world_coords).2 in
  weight_at (self wd') "b0" (Examples.coords 2 1 1 1) = Some 15 ∧
  keys_at (self wd') "b0"
    = Some [Examples.coords 2 0 1 0; Examples.coords 2 1 1 1;
            Examples.coords 2 2 1 2] ∧
  dict_keys (matchboxes (self wd')) = ["b0"; "end"].
Proof.
  destruct (train_model_frame Examples.history_coords 1 2 Examples.world_coords)
    as (Hweight & Hkeys & Hstates & _).
  split_and!.
  - rewrite Hweight; [reflexivity | compute_done].
  - rewrite Hkeys. reflexivity.
  - rewrite Hstates. reflexivity.
Defined.

(** C10.  When the slice holds a pair whose state the agent has no
    matchbox for, and the adjustments of the pairs before it went through,
    the call raises [KeyError] for that state, the agent is left as those
    adjustments made it, and [save_model] is not reached: the files are
    as they were. *)
Theorem train_model_unknown_state_not_atomic
    game_history player_position winner_position wd pre state move post wd1 :
  slice_from_step2 game_history (player_position - 1)
    = pre ++ (state, move) :: post →
  for_each pre
    (λ '(state, move),
       adjust (if decide (player_position = winner_position)
               then reward else punish) state move) wd = (Ok tt, wd1) →
  state ∉ dict_keys (matchboxes (self wd)) →
  _train_model game_history player_position winner_position wd
    = (Raise (KeyError (PStr state)), wd1) ∧
  files wd1 = files wd.
Proof.
  intros Hslice Hpre Hunknown.
  assert (Hframe : files wd1 = files wd ∧
                   dict_keys (matchboxes (self wd1))
                     = dict_keys (matchboxes (self wd))).
  { destruct (decide (player_position = winner_position)).
    - pose proof (for_each_adjust_frame 1 pre wd) as [Hf (_ & _ & Hk & _)].
      simpl in Hf, Hk. unfold reward in Hpre. by rewrite Hpre in Hf, Hk.
    - pose proof (for_each_adjust_frame (-1) pre wd) as [Hf (_ & _ & Hk & _)].
      simpl in Hf, Hk. unfold punish in Hpre. by rewrite Hpre in Hf, Hk. }
  destruct Hframe as [Hfiles Hstates]. split; [|done].
  rewrite train_model_run, Hslice, for_each_app, Hpre. simpl.
  rewrite bind_run, adjust_run.
  rewrite <- Hstates in Hunknown. apply dict_get_None in Hunknown.
  by rewrite Hunknown.
Qed.

Lemma train_model_unknown_state_not_atomic_witness :
  _train_model Examples.history_unknown 1 1 Examples.world_coords
    = (Raise (KeyError (PStr "gone")), Examples.world_coords_rewarded_once) ∧
  files Examples.world_coords_rewarded_once = files Examples.world_coords.
Proof.
  apply (train_model_unknown_state_not_atomic
           Examples.history_unknown 1 1 Examples.world_coords
           [("b0", Examples.coords 2 2 1 2)] "gone" (Examples.coords 2 0 1 0)
           [("b0", Examples.coords 2 1 1 1)]).
  - reflexivity.
  - reflexivity.
  - compute_done.
Defined.
End train_facts.

(** ** Floats *)

Section float_facts.
Implicit Types (x rnd : Float.t).

Lemma lt_int_mono x u v :
  Float.lt_int x u = true → u ≤ v → Float.lt_int x v = true.
Proof.
  destruct x as [m e|s|]; simpl; [|done..].
  destruct (Z.leb_spec 0 e) as [He|He]; rewrite !Z.ltb_lt; [lia|].
  intros Hu Huv. pose proof (Z.pow_pos_nonneg 2 (- e)). nia.
Qed.

Lemma lt_int_zero m e : Float.lt_int (Float.Finite m e) 0 = (m <? 0).
Proof.
  simpl. destruct (Z.leb_spec 0 e); [|done].
  pose proof (Z.pow_pos_nonneg 2 e).
  destruct (Z.ltb_spec m 0); [apply Z.ltb_lt | apply Z.ltb_ge]; nia.
Qed.

Lemma shift_round_bounds n k :
  n / 2 ^ k ≤ Float.shift_round n k ≤ n / 2 ^ k + 1.
Proof.
  unfold Float.shift_round.
  repeat match goal with |- context [if ?b then _ else _] => destruct b end; lia.
Qed.

(** What is rounded with a positive sign is not below zero. *)
Lemma round_not_negative n e :
  0 ≤ n → Float.lt_int (Float.round false n e) 0 = false.
Proof.
  intros Hn. unfold Float.round.
  set (c := Z.max _ _).
  assert (Hm : 0 ≤ (if c <=? e then (n, e) else (Float.shift_round n (c - e), c)).1).
  { destruct (c <=? e); simpl; [done|].
    pose proof (shift_round_bounds n (c - e)).
    pose proof (Z.div_pos n (2 ^ (c - e))).
    destruct (Z.le_gt_cases 0 (c - e)).
    - pose proof (Z.pow_pos_nonneg 2 (c - e)). lia.
    - rewrite Z.pow_neg_r in * by lia. rewrite Z.div_0_r in *. lia. }
  destruct (if c <=? e then _ else _) as [m q]. simpl in Hm.
  destruct (_ && _); [done|]. simpl.
  destruct (0 <=? q); [|lia].
  apply Z.ltb_ge. pose proof (Z.pow_nonneg 2 q). nia.
Qed.

Lemma mul_not_negative rnd m e :
  0 < m → Float.lt_int rnd 0 = false →
  Float.lt_int (Float.mul rnd (Float.Finite m e)) 0 = false.
Proof.
  intros Hm. destruct rnd as [m1 e1|s|]; [| |done].
  - rewrite lt_int_zero. intros Hm1. simpl.
    rewrite Hm1. replace (m <? 0) with false by (symmetry; apply Z.ltb_ge; lia).
    apply round_not_negative. lia.
  - simpl. intros ->. destruct (Z.eqb_spec m 0); [lia|].
    by replace (m <? 0) with false by (symmetry; apply Z.ltb_ge; lia).
Qed.

Lemma pow_970 :
  2 ^ 971 = 2 * 2 ^ 970 ∧ 2 ^ 1024 = 18014398509481984 * 2 ^ 970 ∧
  2 ^ 1023 = 9007199254740992 * 2 ^ 970.
Proof. by vm_compute. Qed.

(** An integer of more than 53 bits keeps its leading 53, rounded. *)
Lemma round_int_mantissa a :
  0 < a → 52 < Z.log2 a →
  let m := Float.shift_round a (Z.log2 a - 52) in
  2 ^ 52 ≤ a / 2 ^ (Z.log2 a - 52) < 2 ^ 53 ∧ 2 ^ 52 ≤ m ≤ 2 ^ 53 ∧
  52 ≤ Z.log2 m ≤ 53.
Proof.
  intros Ha Hb m. destruct (Z.log2_spec a Ha) as [Hlo Hhi].
  pose proof (shift_round_bounds a (Z.log2 a - 52)) as Hm. fold m in Hm.
  set (b := Z.log2 a) in *. set (c := b - 52) in *.
  assert (Hc : 0 < c) by (unfold c; lia).
  assert (Hpc : 0 < 2 ^ c) by (apply Z.pow_pos_nonneg; lia).
  assert (Hq : 2 ^ 52 ≤ a / 2 ^ c < 2 ^ 53).
  { split.
    - apply Z.div_le_lower_bound; [done|]. rewrite <- Z.pow_add_r by lia.
      by replace (c + 52) with b by (unfold c; lia).
    - apply Z.div_lt_upper_bound; [done|]. rewrite <- Z.pow_add_r by lia.
      by replace (c + 53) with (Z.succ b) by (unfold c; lia). }
  split; [done|]. split; [lia|].
  split.
  - apply Z.log2_le_pow2; lia.
  - assert (Z.log2 m < 54); [|lia]. apply Z.log2_lt_pow2; lia.
Qed.

Lemma round_unfold_int neg a :
  0 < a →
  Float.round neg a 0 =
    let c := Z.log2 a - 52 in
    let '(m, q) := if c <=? 0 then (a, 0) else (Float.shift_round a c, c) in
    if (0 <? m) && (Float.max_exp <=? q + Z.log2 m) then Float.Infinity neg
    else Float.Finite (if neg then - m else m) q.
Proof.
  intros Ha. unfold Float.round, Float.mant_dig, Float.min_quantum.
  pose proof (Z.log2_nonneg a).
  replace (Z.max (0 + Z.log2 a + 1 - 53) (-1074)) with (Z.log2 a - 52) by lia.
  by rewrite Z.sub_0_r.
Qed.

Lemma round_int_finite neg a :
  0 ≤ a < Float.int_limit →
  ∃ m e, Float.round neg a 0 = Float.Finite (if neg then - m else m) e ∧
         (0 < a ↔ 0 < m).
Proof.
  unfold Float.int_limit. intros [Ha Hlim].
  destruct (decide (a = 0)) as [->|Hne].
  { exists 0, 0. by destruct neg. }
  assert (Hpos : 0 < a) by lia. rewrite round_unfold_int by done. simpl.
  destruct (Z.log2_spec a Hpos) as [Hlo Hhi].
  destruct (Z.leb_spec (Z.log2 a - 52) 0) as [Hc|Hc].
  - exists a, 0. split; [|done].
    replace (Float.max_exp <=? 0 + Z.log2 a) with false; [by rewrite andb_false_r|].
    symmetry. apply Z.leb_gt. unfold Float.max_exp. lia.
  - destruct (round_int_mantissa a Hpos ltac:(lia)) as (Hq & Hm & Hlog).
    set (m := Float.shift_round a (Z.log2 a - 52)) in *.
    exists m, (Z.log2 a - 52). split; [|lia].
    replace (Float.max_exp <=? Z.log2 a - 52 + Z.log2 m) with false;
      [by rewrite andb_false_r|].
    symmetry. apply Z.leb_gt. unfold Float.max_exp.
    assert (Hb : Z.log2 a < 1024).
    { apply Z.log2_lt_pow2; [done|]. pose proof (Z.pow_pos_nonneg 2 970). lia. }
    destruct (decide (Z.log2 a = 1023)) as [Hb'|Hb']; [|lia].
    assert (m < 2 ^ 53); [|assert (Z.log2 m < 53) by (apply Z.log2_lt_pow2; lia); lia].
    unfold m. rewrite Hb' in *. change (1023 - 52) with 971 in *.
    unfold Float.shift_round. change (971 - 1) with 970.
    destruct pow_970 as (H971 & H1024 & H1023).
    pose proof (Z.pow_pos_nonneg 2 970 ltac:(lia) ltac:(lia)) as HP.
    pose proof (Z.div_mod a (2 ^ 971) ltac:(lia)) as Hdiv.
    pose proof (Z.mod_pos_bound a (2 ^ 971) ltac:(lia)) as Hmod.
    rewrite H971, H1024 in *. set (P := 2 ^ 970) in *.
    set (q := a / (2 * P)) in *. set (r := a mod (2 * P)) in *.
    change (2 ^ 53) with 9007199254740992 in *.
    destruct (decide (q = 9007199254740991)) as [Hq1|Hq1].
    + rewrite Hq1 in *. destruct (Z.ltb_spec r P); [lia|]. lia.
    + repeat match goal with |- context [if ?b then _ else _] => destruct b end; lia.
Qed.

Lemma round_int_overflow neg a :
  Float.int_limit ≤ a → Float.round neg a 0 = Float.Infinity neg.
Proof.
  unfold Float.int_limit. intros Hlim.
  destruct pow_970 as (H971 & H1024 & H1023).
  pose proof (Z.pow_pos_nonneg 2 970 ltac:(lia) ltac:(lia)) as HP.
  assert (Hpos : 0 < a) by lia. rewrite round_unfold_int by done. simpl.
  assert (Hb : 1023 ≤ Z.log2 a) by (apply Z.log2_le_pow2; lia).
  destruct (Z.leb_spec (Z.log2 a - 52) 0) as [Hc|Hc]; [lia|].
  destruct (round_int_mantissa a Hpos ltac:(lia)) as (Hq & Hm & Hlog).
  set (m := Float.shift_round a (Z.log2 a - 52)) in *.
  replace (0 <? m) with true by (symmetry; apply Z.ltb_lt; lia).
  replace (Float.max_exp <=? Z.log2 a - 52 + Z.log2 m) with true; [done|].
  symmetry. apply Z.leb_le. unfold Float.max_exp.
  destruct (decide (Z.log2 a = 1023)) as [Hb'|Hb']; [|lia].
  assert (m = 2 ^ 53) as ->; [|change (Z.log2 (2 ^ 53)) with 53; lia].
  destruct (Z.log2_spec a Hpos) as [_ Hhi].
  unfold m in *. rewrite Hb' in *. change (1023 - 52) with 971 in *.
  change (Z.succ 1023) with 1024 in Hhi.
  unfold Float.shift_round. change (971 - 1) with 970.
  pose proof (Z.div_mod a (2 ^ 971) ltac:(lia)) as Hdiv.
  pose proof (Z.mod_pos_bound a (2 ^ 971) ltac:(lia)) as Hmod.
  rewrite H971, H1024 in *. set (P := 2 ^ 970) in *.
  set (q := a / (2 * P)) in *. set (r := a mod (2 * P)) in *.
  change (2 ^ 53) with 9007199254740992 in *.
  assert (q = 9007199254740991) as -> by nia.
  destruct (Z.ltb_spec r P); [lia|].
  destruct (Z.ltb_spec P r); [lia|]. done.
Qed.

(** An integer converts exactly when it is below [int_limit] in absolute
    value, and the float has its sign. *)
Lemma of_int_finite n :
  Z.abs n < Float.int_limit →
  ∃ m e, Float.of_int n = Ok (Float.Finite m e) ∧ (0 < n ↔ 0 < m).
Proof.
  intros Hlim. unfold Float.of_int.
  destruct (round_int_finite (n <? 0) (Z.abs n)) as (m & e & -> & Hm); [lia|].
  exists (if n <? 0 then - m else m), e. split; [done|].
  destruct (Z.ltb_spec n 0); lia.
Qed.

Lemma of_int_overflow n :
  Float.int_limit ≤ Z.abs n → Float.of_int n = Raise OverflowError.
Proof.
  intros Hlim. unfold Float.of_int. by rewrite round_int_overflow.
Qed.

Lemma int_limit_bounds : 15 * 2 ^ 1000 < Float.int_limit.
Proof. by vm_compute. Qed.
End float_facts.

(** ** Drawing a bead *)

Section draw_facts.
Import Matchbox Menace Spec Shape.
Implicit Types (me : Menace.t) (self : Matchbox.t) (rnd x : Float.t).
Implicit Types (ws a : list Z).

Lemma accumulate_from_length acc ws :
  length (accumulate_from acc ws) = length ws.
Proof. revert acc. induction ws as [|w ws IH]; intros acc; simpl; auto. Qed.

Lemma accumulate_from_last_sum acc ws :
  ws ≠ [] → last (accumulate_from acc ws) = Some (acc + sum_list ws).
Proof.
  revert acc. induction ws as [|w ws IH]; intros acc Hne; [done|].
  destruct ws as [|w' ws].
  - simpl. f_equal. lia.
  - change (last (accumulate_from acc (w :: w' :: ws)))
      with (last (accumulate_from (acc + w) (w' :: ws))).
    rewrite IH by done. simpl. f_equal. lia.
Qed.

Lemma sum_list_bounds (lo hi : Z) ws :
  Forall (λ beads, lo ≤ beads ≤ hi) ws →
  lo * Z.of_nat (length ws) ≤ sum_list ws ≤ hi * Z.of_nat (length ws).
Proof.
  induction 1 as [|w ws Hw Hws IH]; simpl; [lia|].
  rewrite Nat2Z.inj_succ. lia.
Qed.

Lemma sum_list_positive ws :
  ws ≠ [] → Forall (λ beads, 1 ≤ beads) ws → 0 < sum_list ws.
Proof.
  intros Hne Hpos. destruct Hpos as [|w ws Hw Hws]; [done|]. simpl.
  clear Hne. induction Hws as [|w' ws Hw' Hws IH]; simpl; lia.
Qed.

(** The search returns, and returns a position between its two bounds. *)
Lemma bisect_bounds a x lo hi :
  (lo ≤ hi)%nat → (hi ≤ length a)%nat →
  ∃ i, bisect a x lo hi = Ok i ∧ (lo ≤ i ≤ hi)%nat.
Proof.
  funelim (bisect a x lo hi); intros Hle Hhi;
    pose proof (Nat.div_mod_eq (lo + hi) 2);
    pose proof (Nat.mod_upper_bound (lo + hi) 2 ltac:(lia)).
  - exists lo. split; [done | lia].
  - match goal with
    | Hmid : _ !! _ = None |- _ => apply lookup_ge_None in Hmid; lia
    end.
  - match goal with
    | IH : _ → _ → ∃ i, bisect _ _ _ _ = Ok i ∧ _ |- _ =>
        destruct IH as (i & Hi & Hb); [lia..|]
    end.
    exists i. split; [done | lia].
  - match goal with
    | IH : _ → _ → ∃ i, bisect _ _ _ _ = Ok i ∧ _ |- _ =>
        destruct IH as (i & Hi & Hb); [lia..|]
    end.
    exists i. split; [done | lia].
Qed.

Lemma choices_member population ws rnd move :
  choices population ws rnd = Ok move → move ∈ population.
Proof.
  unfold choices. destruct (negb _); [done|].
  destruct (last _) as [last_sum|]; [|done].
  destruct (Float.of_int last_sum) as [total|]; [|done].
  destruct (Float.le_zero total); [done|].
  destruct (negb (Float.isfinite total)); [done|].
  destruct (bisect _ _ _ _) as [i|]; [|done].
  destruct (population !! i) as [move'|] eqn:Hi; [|done].
  intros [= <-]. by eapply list_elem_of_lookup_2.
Qed.

(** On a table that is not empty the draw is the conversion of the total,
    the two checks, the search and the lookup. *)
Lemma draw_bead_run self rnd :
  moves_and_beads self ≠ [] →
  draw_bead self rnd =
    let ws := dict_values (moves_and_beads self) in
    let moves := dict_keys (moves_and_beads self) in
    match Float.of_int (sum_list ws) with
    | Raise e => Raise e
    | Ok total =>
        if Float.le_zero total then Raise ValueError else
        if negb (Float.isfinite total) then Raise ValueError else
        match bisect (accumulate ws) (Float.mul rnd total) 0
                (length moves - 1) with
        | Raise e => Raise e
        | Ok i => match moves !! i with
                  | None => Raise IndexError
                  | Some move => Ok move
                  end
        end
    end.
Proof.
  intros Hne. unfold draw_bead, choices, accumulate.
  assert (Hlen : length (dict_values (moves_and_beads self))
                 = length (dict_keys (moves_and_beads self))).
  { unfold dict_values, dict_keys. by rewrite !length_fmap. }
  rewrite accumulate_from_length, Hlen, Nat.eqb_refl. simpl.
  rewrite accumulate_from_last_sum.
  - by rewrite Z.add_0_l.
  - unfold dict_values. by destruct (moves_and_beads self).
Qed.

Lemma draw_bead_returns self rnd :
  moves_and_beads self ≠ [] →
  0 < sum_list (dict_values (moves_and_beads self)) < Float.int_limit →
  ∃ move, draw_bead self rnd = Ok move ∧
          move ∈ dict_keys (moves_and_beads self).
Proof.
  intros Hne Hsum. rewrite draw_bead_run by done. simpl.
  destruct (of_int_finite (sum_list (dict_values (moves_and_beads self))))
    as (m & e & -> & Hm); [lia|].
  simpl. destruct (Z.leb_spec m 0); [lia|].
  assert (Hpos : (0 < length (dict_keys (moves_and_beads self)))%nat).
  { unfold dict_keys. destruct (moves_and_beads self); [done | simpl; lia]. }
  edestruct (bisect_bounds (accumulate (dict_values (moves_and_beads self))))
    as (i & -> & Hi); [lia | |].
  { unfold accumulate, dict_values, dict_keys.
    rewrite accumulate_from_length, !length_fmap. lia. }
  destruct (lookup_lt_is_Some_2 (dict_keys (moves_and_beads self)) i)
    as [move Hmove]; [lia|].
  rewrite Hmove. exists move. split; [done|]. by eapply list_elem_of_lookup_2.
Qed.

Lemma draw_bead_overflow self rnd :
  moves_and_beads self ≠ [] →
  Float.int_limit ≤ Z.abs (sum_list (dict_values (moves_and_beads self))) →
  draw_bead self rnd = Raise OverflowError.
Proof.
  intros Hne Hsum. rewrite draw_bead_run by done. simpl.
  by rewrite of_int_overflow.
Qed.

Lemma draw_bead_single state move beads rnd :
  1 ≤ beads < Float.int_limit →
  draw_bead (Matchbox.mk state [(move, beads)]) rnd = Ok move.
Proof.
  intros Hpos. rewrite draw_bead_run by done. simpl.
  destruct (of_int_finite (beads + 0)) as (m & e & -> & Hm); [lia|].
  simpl. destruct (Z.leb_spec m 0); [lia|]. by simp bisect.
Qed.

(** C9, as the code has it.  For a state that is not in the agent's table
    [get_move] raises the exception with the message of the source and
    returns no move.  For a state that is in the table it is the draw from
    that state's matchbox, and whatever it returns is one of the keys of the
    matchbox.  On a matchbox without moves it raises [IndexError].  On a
    matchbox with at least one move and only weights of at least 1 it
    returns a move, for every value of [random()], when the weights add up
    to less than [int_limit], the integers [random.choices] can convert to
    a float, and raises [OverflowError] when they add up to more; weights
    between 1 and 15 stay below for every table of fewer than [2^1000]
    moves.  On a matchbox with exactly one move, of such a weight, it
    returns that move. *)
Theorem get_move_unknown_raises_known_draws me board_state rnd :
  (board_state ∉ dict_keys (matchboxes me) →
     get_move me board_state rnd
       = Raise (Exception ("No matchbox found for board state:" +:+ newline
                           +:+ board_state))) ∧
  (∀ matchbox,
     dict_get (matchboxes me) board_state = Some matchbox →
     let ws := dict_values (moves_and_beads matchbox) in
     get_move me board_state rnd = draw_bead matchbox rnd ∧
     (∀ move, get_move me board_state rnd = Ok move →
              move ∈ dict_keys (moves_and_beads matchbox)) ∧
     (moves_and_beads matchbox = [] →
      get_move me board_state rnd = Raise IndexError) ∧
     (moves_and_beads matchbox ≠ [] → Forall (λ beads, 1 ≤ beads) ws →
      sum_list ws < Float.int_limit →
      ∃ move, get_move me board_state rnd = Ok move ∧
              move ∈ dict_keys (moves_and_beads matchbox)) ∧
     (moves_and_beads matchbox ≠ [] → Forall (λ beads, 1 ≤ beads) ws →
      Float.int_limit ≤ sum_list ws →
      get_move me board_state rnd = Raise OverflowError) ∧
     (moves_and_beads matchbox ≠ [] → Forall Calls.in_bounds ws →
      Z.of_nat (length ws) < 2 ^ 1000 →
      ∃ move, get_move me board_state rnd = Ok move ∧
              move ∈ dict_keys (moves_and_beads matchbox)) ∧
     (∀ move beads,
        moves_and_beads matchbox = [(move, beads)] →
        1 ≤ beads < Float.int_limit →
        get_move me board_state rnd = Ok move)).
Proof.
  unfold get_move. split.
  - by intros ->%dict_get_None.
  - intros matchbox ->. simpl.
    assert (Hws : moves_and_beads matchbox ≠ [] →
                  dict_values (moves_and_beads matchbox) ≠ []).
    { unfold dict_values. by destruct (moves_and_beads matchbox). }
    split_and!; [done|..].
    + intros move. apply choices_member.
    + intros Hnil. unfold draw_bead. by rewrite Hnil.
    + intros Hne Hpos Hlim. apply draw_bead_returns; [done|].
      split; [|done]. apply sum_list_positive; auto.
    + intros Hne Hpos Hlim. apply draw_bead_overflow; [done|]. lia.
    + intros Hne Hin Hlen. apply draw_bead_returns; [done|].
      pose proof (sum_list_positive _ (Hws Hne)) as Hlo.
      pose proof (sum_list_bounds 1 15 _ Hin) as Hhi.
      pose proof int_limit_bounds.
      split; [|lia]. apply Hlo. eapply Forall_impl; [exact Hin|].
      by intros beads [? ?].
    + intros move beads Hone Hpos. destruct matchbox as [state mab].
      simpl in Hone. subst mab. by apply draw_bead_single.
Qed.

Lemma get_move_unknown_raises_known_draws_witness :
  get_move Examples.agent_coords "nowhere" Examples.one_half
    = Raise (Exception ("No matchbox found for board state:" +:+ newline
                        +:+ "nowhere")) ∧
  (∃ move, get_move Examples.agent_coords "b0" Examples.three_tenths = Ok move ∧
           move ∈ dict_keys (moves_and_beads Examples.box_coords)) ∧
  get_move (with_matchboxes Examples.agent_coords [("b0", Examples.box_heavy)])
           "b0" Examples.one_half
    = Raise OverflowError ∧
  get_move (with_matchboxes Examples.agent_coords
              [("one", Matchbox.mk "one" [(Examples.coords 0 0 1 0, 7)])])
           "one" Examples.below_two_thirds
    = Ok (Examples.coords 0 0 1 0).
Proof.
  split_and!.
  - apply (get_move_unknown_raises_known_draws
             Examples.agent_coords "nowhere" Examples.one_half). compute_done.
  - destruct (proj2 (get_move_unknown_raises_known_draws
                       Examples.agent_coords "b0" Examples.three_tenths)
                Examples.box_coords eq_refl) as (_ & _ & _ & _ & _ & Hdraw & _).
    apply Hdraw; [discriminate | | reflexivity].
    repeat first [apply Forall_nil_2 | apply Forall_cons_2];
      vm_compute; intuition discriminate.
  - destruct (proj2 (get_move_unknown_raises_known_draws
                       (with_matchboxes Examples.agent_coords
                          [("b0", Examples.box_heavy)])
                       "b0" Examples.one_half)
                Examples.box_heavy eq_refl) as (_ & _ & _ & _ & Hover & _).
    apply Hover; [discriminate | | by vm_compute].
    repeat first [apply Forall_nil_2 | apply Forall_cons_2]; by vm_compute.
  - destruct (proj2 (get_move_unknown_raises_known_draws
                       (with_matchboxes Examples.agent_coords
                          [("one", Matchbox.mk "one"
                                     [(Examples.coords 0 0 1 0, 7)])])
                       "one" Examples.below_two_thirds)
                (Matchbox.mk "one" [(Examples.coords 0 0 1 0, 7)]) eq_refl)
      as (_ & _ & _ & _ & _ & _ & Hsingle).
    apply (Hsingle (Examples.coords 0 0 1 0) 7); [reflexivity|].
    split; [lia | by vm_compute].
Defined.

(** Where the claim of C9 fails.  The agent built from a table in which the
    state [end] has no legal move knows that state, and there is nothing to
    draw for it: [get_move] raises [IndexError] whatever the random number
    and returns no move. *)
Lemma get_move_known_state_without_moves :
  (__init__ Examples.base_dir
     (Kwargs (Some 1) (Some "game") (Some Examples.table_coords)) ∅).1
    = Ok Examples.agent_built ∧
  "end" ∈ dict_keys (matchboxes Examples.agent_built) ∧
  (∀ rnd, get_move Examples.agent_built "end" rnd = Raise IndexError) ∧
  ¬ ∃ rnd move, get_move Examples.agent_built "end" rnd = Ok move.
Proof.
  split_and!; [by vm_compute | compute_done | done |].
  by intros (rnd & move & Hmove).
Qed.
End draw_facts.


(** ** Construction *)

Section init_facts.
Import Matchbox Menace Spec Shape.
Implicit Types (wd : world) (me : Menace.t) (state : string) (move : Move).
Implicit Types (mbs : dict string Matchbox.t) (table : dict string (list Move)).
Implicit Types (items : list (string * Matchbox.t)).

Lemma with_matchboxes_same me : with_matchboxes me (matchboxes me) = me.
Proof. by destruct me. Qed.

Lemma store_matchbox_run state matchbox wd :
  store_matchbox state matchbox wd =
    (Ok tt,
     World (with_matchboxes (self wd)
              (dict_set (matchboxes (self wd)) state matchbox))
           (files wd)).
Proof. reflexivity. Qed.

Lemma create_loop_run table initial_beads wd :
  for_each (dict_items table)
    (λ '(state, moves),
       store_matchbox state (Matchbox.mk state (fresh_beads moves initial_beads)))
    wd =
    (Ok tt,
     World (with_matchboxes (self wd)
              (fresh_into table initial_beads (matchboxes (self wd))))
           (files wd)).
Proof.
  unfold dict_items, fresh_into. revert wd.
  induction table as [|[state moves] table IH]; intros wd; simpl.
  - rewrite with_matchboxes_same. by destruct wd.
  - rewrite bind_run, store_matchbox_run, IH. reflexivity.
Qed.

Lemma import_loop_run (content : model_json) wd :
  for_each (dict_items content)
    (λ '(state_str, moves_list),
       moves_and_beads ← lift (load_moves moves_list []);
       store_matchbox state_str (Matchbox.mk state_str moves_and_beads))
    wd =
    ((load_into content (matchboxes (self wd))).1,
     World (with_matchboxes (self wd)
              (load_into content (matchboxes (self wd))).2)
           (files wd)).
Proof.
  unfold dict_items. revert wd.
  induction content as [|[state_str moves_list] content IH]; intros wd; simpl.
  - rewrite with_matchboxes_same. by destruct wd.
  - rewrite !bind_run. unfold lift.
    destruct (load_moves moves_list []) as [moves_and_beads|e]; simpl.
    + rewrite IH. reflexivity.
    + rewrite with_matchboxes_same. by destruct wd.
Qed.

Lemma import_model_run path wd :
  import_model path wd =
    match files wd !! path with
    | Some content =>
        ((load_into content (matchboxes (self wd))).1,
         World (with_matchboxes (self wd)
                  (load_into content (matchboxes (self wd))).2)
               (files wd))
    | None => (Raise (no_such_file path), wd)
    end.
Proof.
  unfold import_model. rewrite bind_run. simpl.
  destruct (files wd !! path) as [content|]; [|done].
  apply import_loop_run.
Qed.

Lemma create_model_run base_dir pos name table initial_beads wd :
  create_model base_dir pos name table initial_beads wd =
    let me' :=
      with_model_path
        (with_matchboxes (self wd)
           (fresh_into table initial_beads (matchboxes (self wd))))
        (default_model_path base_dir name pos) in
    match dump_matchboxes (dict_items (matchboxes me')) [] with
    | Ok model_json =>
        (Ok tt, World me' (<[model_path me' := model_json]> (files wd)))
    | Raise e => (Raise e, World me' (files wd))
    end.
Proof.
  unfold create_model. rewrite bind_run, create_loop_run, bind_run.
  unfold set_model_path. rewrite save_model_run. reflexivity.
Qed.

(** *** The fresh table *)

Lemma fresh_beads_acc_values (P : Z → Prop) moves initial_beads (acc : dict Move Z) :
  P initial_beads → Forall P (dict_values acc) →
  Forall P (dict_values
              (foldl (λ d m, dict_set d m initial_beads) acc moves)).
Proof.
  intros Hib. revert acc.
  induction moves as [|m moves IH]; intros acc Hacc; simpl; [done|].
  apply IH. by apply dict_values_set_Forall.
Qed.

Lemma fresh_beads_acc_keys moves initial_beads (acc : dict Move Z) m :
  m ∈ dict_keys (foldl (λ d m, dict_set d m initial_beads) acc moves)
  ↔ m ∈ dict_keys acc ∨ m ∈ moves.
Proof.
  revert acc. induction moves as [|m' moves IH]; intros acc; simpl.
  - split; [by left|]. intros [?|Hin]; [done | inversion Hin].
  - rewrite IH, dict_keys_set_elem, elem_of_cons. tauto.
Qed.

Lemma fresh_beads_acc_NoDup moves initial_beads (acc : dict Move Z) :
  NoDup (dict_keys acc) →
  NoDup (dict_keys (foldl (λ d m, dict_set d m initial_beads) acc moves)).
Proof.
  revert acc. induction moves as [|m moves IH]; intros acc Hacc; simpl; [done|].
  apply IH. by apply dict_set_NoDup.
Qed.

Lemma fresh_into_items (Q : string * Matchbox.t → Prop) table initial_beads mbs :
  Forall Q (dict_items mbs) →
  (∀ state moves, (state, moves) ∈ table →
     Q (state, Matchbox.mk state (fresh_beads moves initial_beads))) →
  Forall Q (dict_items (fresh_into table initial_beads mbs)).
Proof.
  unfold fresh_into. revert mbs.
  induction table as [|[state moves] table IH]; intros mbs Hmbs HQ; simpl; [done|].
  apply IH.
  - apply dict_items_set_Forall; [done|]. apply HQ. left.
  - intros state' moves' Hin. apply HQ. by right.
Qed.

Lemma fresh_into_keys table initial_beads mbs state :
  state ∈ dict_keys (fresh_into table initial_beads mbs)
  ↔ state ∈ dict_keys mbs ∨ state ∈ dict_keys table.
Proof.
  unfold fresh_into. revert mbs.
  induction table as [|[state' moves] table IH]; intros mbs; simpl.
  - split; [by left|]. intros [?|Hin]; [done | inversion Hin].
  - rewrite IH, dict_keys_set_elem. unfold dict_keys at 4. csimpl.
    rewrite elem_of_cons. tauto.
Qed.

Lemma fresh_into_NoDup table initial_beads mbs :
  NoDup (dict_keys mbs) →
  NoDup (dict_keys (fresh_into table initial_beads mbs)).
Proof.
  unfold fresh_into. revert mbs.
  induction table as [|[state moves] table IH]; intros mbs Hmbs; simpl; [done|].
  apply IH. by apply dict_set_NoDup.
Qed.

Lemma all_weights_items (P : Z → Prop) mbs :
  all_weights P mbs ↔
  Forall (λ entry, Forall P (dict_values (moves_and_beads entry.2)))
         (dict_items mbs).
Proof. unfold all_weights, dict_values, dict_items. by rewrite Forall_fmap. Qed.

Lemma fresh_table_all_weights table initial_beads :
  all_weights (λ beads, beads = initial_beads) (fresh_table table initial_beads).
Proof.
  apply all_weights_items, fresh_into_items; [constructor|].
  intros state moves _. simpl.
  apply fresh_beads_acc_values; [done | constructor].
Qed.

(** *** Writing and reading the model file *)

Lemma moves_list_of_beads (P : Z → Prop) (items : list (Move * Z)) moves_list :
  moves_list_of items = Ok moves_list →
  Forall P items.*2 → Forall (λ item, P (beads item)) moves_list.
Proof.
  revert moves_list.
  induction items as [|[move b] items IH]; intros moves_list; simpl.
  - intros [= <-] _. constructor.
  - destruct (unpack_move move) as [[[from_row from_col] [to_row to_col]]|e];
      simpl; [|done].
    destruct (moves_list_of items) as [rest|e]; simpl; [|done].
    intros [= <-] [Hb Hrest]%Forall_cons. constructor; [done | by apply IH].
Qed.

Lemma dump_matchboxes_Forall (Q : string * list move_record → Prop)
    (items : list (string * Matchbox.t)) (acc model_json : Json.model_json) :
  dump_matchboxes items acc = Ok model_json →
  Forall Q (dict_items acc) →
  (∀ state matchbox moves_list,
     (state, matchbox) ∈ items →
     moves_list_of (dict_items (moves_and_beads matchbox)) = Ok moves_list →
     Q (state, moves_list)) →
  Forall Q (dict_items model_json).
Proof.
  revert acc.
  induction items as [|[state matchbox] items IH]; intros acc; simpl.
  - by intros [= <-].
  - destruct (moves_list_of _) as [moves_list|e] eqn:Hlist; simpl; [|done].
    intros Hdump Hacc HQ. apply (IH _ Hdump).
    + apply dict_items_set_Forall; [done|]. eapply HQ; [left | done].
    + intros state' matchbox' moves_list' Hin. apply HQ. by right.
Qed.

Lemma load_moves_Forall (P : Z → Prop) moves_list (acc d : dict Move Z) :
  load_moves moves_list acc = Ok d →
  Forall (λ item, P (beads item)) moves_list →
  Forall P (dict_values acc) → Forall P (dict_values d).
Proof.
  revert acc.
  induction moves_list as [|[[[fr fc] [tr tc]] b] moves_list IH];
    intros acc; simpl.
  - by intros [= <-].
  - destruct (hashable fr); simpl; [|done].
    destruct (hashable fc); simpl; [|done].
    destruct (hashable tr); simpl; [|done].
    destruct (hashable tc); simpl; [|done].
    intros Hload [Hb Hrest]%Forall_cons Hacc. simpl in Hb.
    apply (IH _ Hload Hrest). by apply dict_values_set_Forall.
Qed.

Lemma load_into_all_weights (P : Z → Prop) (model_json : Json.model_json) mbs :
  all_beads P model_json → all_weights P mbs →
  all_weights P (load_into model_json mbs).2.
Proof.
  unfold all_beads, all_weights, dict_values. revert mbs.
  induction model_json as [|[state_str moves_list] model_json IH];
    intros mbs Hjson Hmbs; simpl; [done|].
  csimpl in Hjson. apply Forall_cons in Hjson as [Hlist Hjson].
  destruct (load_moves moves_list []) as [d|e] eqn:Hload; [|done].
  apply IH; [done|].
  apply (dict_values_set_Forall
           (λ matchbox, Forall P (moves_and_beads matchbox).*2));
    [done|]. simpl.
  eapply (load_moves_Forall P); [exact Hload | done | constructor].
Qed.

(** Loading records that repeat what the table holds leaves the table as
    it is. *)
Lemma load_into_id (model_json : Json.model_json) mbs :
  Forall (λ entry,
            ∃ matchbox, dict_get mbs entry.1 = Some matchbox ∧
              state matchbox = entry.1 ∧
              load_moves entry.2 [] = Ok (moves_and_beads matchbox))
         (dict_items model_json) →
  load_into model_json mbs = (Ok tt, mbs).
Proof.
  unfold dict_items.
  induction model_json as [|[state_str moves_list] model_json IH];
    intros Hall; simpl; [done|].
  apply Forall_cons in Hall as [(matchbox & Hget & Hstate & Hload) Hall].
  simpl in Hget, Hstate, Hload. rewrite Hload.
  replace (Matchbox.mk state_str (moves_and_beads matchbox)) with matchbox
    by (destruct matchbox; simpl in *; by subst).
  rewrite dict_set_id by done. by apply IH.
Qed.

(** *** Moves the file can hold *)

Lemma codec_move_inv move :
  is_codec_move move = true →
  ∃ a b c d, move = PTuple [PTuple [a; b]; PTuple [c; d]] ∧
    atomic a = true ∧ atomic b = true ∧ atomic c = true ∧ atomic d = true.
Proof.
  unfold is_codec_move. intros Hall.
  repeat match type of Hall with
         | context [match ?v with _ => _ end] => is_var v; destruct v
         end; try discriminate Hall.
  apply andb_prop in Hall as [Hall Hd]. apply andb_prop in Hall as [Hall Hc].
  apply andb_prop in Hall as [Ha Hb]. by eexists _, _, _, _.
Qed.

Lemma atomic_round_trip v : atomic v = true → hashable (dump v) = Ok v.
Proof. by destruct v. Qed.

Lemma codec_items_round_trip (items : dict Move Z) :
  Forall (λ move, is_codec_move move = true) (dict_keys items) →
  ∃ moves_list,
    moves_list_of (dict_items items) = Ok moves_list ∧
    ∀ acc, load_moves moves_list acc
           = Ok (foldl (λ d '(move, b), dict_set d move b) acc items).
Proof.
  unfold dict_keys, dict_items.
  induction items as [|[move b] items IH]; intros Hall.
  - by exists [].
  - csimpl in Hall. apply Forall_cons in Hall as [Hmove Hall].
    destruct (IH Hall) as (moves_list & Hlist & Hload).
    apply codec_move_inv in Hmove as (a & b' & c & d & -> & Ha & Hb & Hc & Hd).
    eexists. split.
    + simpl. rewrite Hlist. simpl. reflexivity.
    + intros acc. simpl.
      rewrite !atomic_round_trip by done. simpl. apply Hload.
Qed.

Lemma init_import base_dir pos name table_opt fs content :
  fs !! default_model_path base_dir name pos = Some content →
  __init__ base_dir (Kwargs pos (Some name) table_opt) fs =
    (match (load_into content []).1 with
     | Ok _ => Ok (Menace.mk pos name table_opt
                     (default_model_path base_dir name pos)
                     (load_into content []).2)
     | Raise e => Raise e
     end, fs).
Proof.
  intros Hfile. unfold __init__, os_path_exists. simpl.
  rewrite bool_decide_true by by rewrite Hfile.
  rewrite import_model_run. simpl. rewrite Hfile. simpl.
  by destruct (load_into content []) as [[[]|e] mbs].
Qed.

Lemma init_create base_dir pos name table fs :
  fs !! default_model_path base_dir name pos = None →
  __init__ base_dir (Kwargs pos (Some name) (Some table)) fs =
    match dump_matchboxes (dict_items (fresh_table table 3)) [] with
    | Ok model_json =>
        (match (load_into model_json (fresh_table table 3)).1 with
         | Ok _ => Ok (Menace.mk pos name (Some table)
                         (default_model_path base_dir name pos)
                         (load_into model_json (fresh_table table 3)).2)
         | Raise e => Raise e
         end, <[default_model_path base_dir name pos := model_json]> fs)
    | Raise e => (Raise e, fs)
    end.
Proof.
  intros Hfile. unfold __init__, os_path_exists. simpl.
  rewrite bool_decide_false by (rewrite Hfile; by intros [? [=]]).
  rewrite bind_run, create_model_run. simpl.
  change (fresh_into table 3 []) with (fresh_table table 3).
  destruct (dump_matchboxes _ _) as [model_json|e]; [|done].
  rewrite bind_run. simpl. rewrite import_model_run. simpl.
  rewrite lookup_insert_eq. simpl.
  by destruct (load_into model_json _) as [[[]|e] mbs].
Qed.

Lemma all_beads_items (P : Z → Prop) (model_json : Json.model_json) :
  all_beads P model_json ↔
  Forall (λ entry, Forall (λ item, P (beads item)) entry.2)
         (dict_items model_json).
Proof. unfold all_beads, dict_values, dict_items. by rewrite Forall_fmap. Qed.

Lemma dump_fresh_all_beads table initial_beads model_json :
  dump_matchboxes (dict_items (fresh_table table initial_beads)) []
    = Ok model_json →
  all_beads (λ b, b = initial_beads) model_json.
Proof.
  intros Hdump. apply all_beads_items.
  eapply (dump_matchboxes_Forall _ _ _ _ Hdump); [constructor|].
  intros state matchbox moves_list Hin Hlist. simpl.
  apply (moves_list_of_beads (λ b, b = initial_beads) _ _ Hlist).
  pose proof (fresh_table_all_weights table initial_beads) as Hall.
  apply all_weights_items in Hall. rewrite Forall_forall in Hall.
  exact (Hall _ Hin).
Qed.

(** *** Tables the file can hold and give back *)

Lemma moves_list_of_ok (its : list (Move * Z)) :
  is_ok (moves_list_of its) = true
  ↔ Forall (λ move, is_ok (unpack_move move) = true) its.*1.
Proof.
  induction its as [|[move b] its IH]; csimpl.
  - split; [constructor | done].
  - rewrite Forall_cons, <- IH.
    destruct (unpack_move move) as [[[fr fc] [tr tc]]|e]; simpl; [|intuition (done || discriminate)].
    destruct (moves_list_of its); simpl; intuition (done || discriminate).
Qed.

Lemma moves_list_of_weights (its : list (Move * Z)) moves_list :
  moves_list_of its = Ok moves_list → beads <$> moves_list = its.*2.
Proof.
  revert moves_list. induction its as [|[move b] its IH]; intros moves_list; csimpl.
  - by intros [= <-].
  - destruct (unpack_move move) as [[[fr fc] [tr tc]]|e]; simpl; [|done].
    destruct (moves_list_of its) as [rest|e]; simpl; [|done].
    intros [= <-]. csimpl. f_equal. by apply IH.
Qed.

Lemma dump_matchboxes_ok items (acc : Json.model_json) :
  is_ok (dump_matchboxes items acc) = true
  ↔ Forall (λ entry,
              is_ok (moves_list_of (dict_items (moves_and_beads entry.2))) = true)
           items.
Proof.
  revert acc. induction items as [|[state matchbox] items IH]; intros acc; simpl.
  - split; [constructor | done].
  - rewrite Forall_cons. simpl.
    destruct (moves_list_of _) as [moves_list|e]; simpl.
    + rewrite IH. intuition (done || discriminate).
    + intuition (done || discriminate).
Qed.

(** For distinct states the file holds one entry per matchbox, in the order
    of the table, after what it held before. *)
Lemma dump_matchboxes_entries items (acc model_json : Json.model_json) :
  NoDup (dict_keys acc ++ dict_keys items) →
  dump_matchboxes items acc = Ok model_json →
  ∃ rest, model_json = acc ++ rest ∧
    Forall2 (λ entry written,
               written.1 = entry.1 ∧
               moves_list_of (dict_items (moves_and_beads entry.2)) = Ok written.2)
            items rest.
Proof.
  revert acc. induction items as [|[state matchbox] items IH]; intros acc Hnd; simpl.
  - intros [= <-]. exists []. by rewrite app_nil_r.
  - destruct (moves_list_of _) as [moves_list|e] eqn:Hlist; simpl; [|done].
    assert (Hnone : dict_get acc state = None).
    { apply dict_get_None. intros Hin.
      apply NoDup_app in Hnd as (_ & Hdisj & _). apply (Hdisj state Hin).
      unfold dict_keys. csimpl. left. }
    rewrite dict_set_absent by done. intros Hdump.
    destruct (IH (acc ++ [(state, moves_list)])) as (rest & -> & Hrest); [|done|].
    { unfold dict_keys in *. rewrite fmap_app, <- app_assoc. by csimpl in *. }
    exists ((state, moves_list) :: rest). split; [by rewrite <- app_assoc|].
    by constructor.
Qed.

Lemma storable_box_reload (entry : string * Matchbox.t) :
  storable_box entry →
  ∃ moves_list,
    moves_list_of (dict_items (moves_and_beads entry.2)) = Ok moves_list ∧
    load_moves moves_list [] = Ok (moves_and_beads entry.2) ∧
    Matchbox.mk entry.1 (moves_and_beads entry.2) = entry.2.
Proof.
  intros (Hstate & Hnd & Hcodec).
  destruct (codec_items_round_trip _ Hcodec) as (moves_list & Hlist & Hload).
  exists moves_list. split_and!; [done| |].
  - rewrite Hload. f_equal. by apply (dict_rebuild []).
  - destruct entry as [state [st mab]]. simpl in *. by subst.
Qed.

(** Saving a storable table and loading the file into an empty table, or
    on top of what was saved, gives the table. *)
Lemma dump_load_fresh items (accj : Json.model_json) (accm : dict string Matchbox.t) :
  NoDup (dict_keys accj ++ dict_keys items) →
  NoDup (dict_keys accm ++ dict_keys items) →
  Forall storable_box items →
  ∃ rest, dump_matchboxes items accj = Ok (accj ++ rest) ∧
          load_into rest accm = (Ok tt, accm ++ items).
Proof.
  revert accj accm.
  induction items as [|[state matchbox] items IH]; intros accj accm Hj Hm Hall.
  - exists []. by rewrite !app_nil_r.
  - apply Forall_cons in Hall as [Hbox Hall].
    destruct (storable_box_reload _ Hbox) as (moves_list & Hlist & Hload & Hmk).
    simpl in Hlist, Hload, Hmk.
    assert (Hnone : ∀ {V} (acc : dict string V),
              NoDup (dict_keys acc ++ dict_keys ((state, matchbox) :: items)) →
              dict_get acc state = None ∧
              NoDup (dict_keys acc ++ [state] ++ dict_keys items)).
    { intros V acc Hnd. split; [|done]. apply dict_get_None. intros Hin.
      apply NoDup_app in Hnd as (_ & Hdisj & _). apply (Hdisj state Hin). left. }
    destruct (Hnone _ accj Hj) as [Hnj Hj'].
    destruct (Hnone _ accm Hm) as [Hnm Hm'].
    destruct (IH (accj ++ [(state, moves_list)]) (accm ++ [(state, matchbox)]))
      as (rest & Hdump & Hreload); [| |done|].
    { unfold dict_keys in *. by rewrite fmap_app, <- app_assoc. }
    { unfold dict_keys in *. by rewrite fmap_app, <- app_assoc. }
    exists ((state, moves_list) :: rest). simpl.
    rewrite Hlist. simpl. rewrite dict_set_absent by done.
    rewrite Hdump, Hload, Hmk, dict_set_absent by done.
    rewrite Hreload, <- !app_assoc. done.
Qed.

Lemma storable_reload mbs (model_json : Json.model_json) :
  storable mbs →
  dump_matchboxes (dict_items mbs) [] = Ok model_json →
  load_into model_json mbs = (Ok tt, mbs).
Proof.
  intros [Hnd Hall] Hdump. apply load_into_id.
  eapply (dump_matchboxes_Forall _ _ _ _ Hdump); [constructor|].
  intros state matchbox moves_list Hin Hlist. simpl.
  rewrite Forall_forall in Hall. pose proof (Hall _ Hin) as Hbox.
  destruct (storable_box_reload _ Hbox) as (moves_list' & Hlist' & Hload & _).
  simpl in *. assert (moves_list' = moves_list) as -> by congruence.
  exists matchbox. split_and!; [by apply dict_items_get | apply Hbox | done].
Qed.

Lemma fresh_table_storable table initial_beads :
  codec_table table → storable (fresh_table table initial_beads).
Proof.
  intros Hcodec. split.
  - apply fresh_into_NoDup. constructor.
  - apply fresh_into_items; [constructor|].
    intros state moves Hin. split_and!; simpl; [done| |].
    + apply fresh_beads_acc_NoDup. constructor.
    + apply Forall_forall. intros move Hmove.
      apply fresh_beads_acc_keys in Hmove as [Hmove|Hmove]; [inversion Hmove|].
      unfold codec_table in Hcodec. rewrite Forall_forall in Hcodec.
      specialize (Hcodec moves). rewrite Forall_forall in Hcodec.
      apply Hcodec; [|done]. by apply (list_elem_of_fmap_2 snd) in Hin.
Qed.

Lemma Forall2_Forall_impl {A B} (P : A → Prop) (R R' : A → B → Prop) l k :
  (∀ x y, P x → R x y → R' x y) →
  Forall P l → Forall2 R l k → Forall2 R' l k.
Proof.
  intros Himpl Hall Hrel. induction Hrel as [|x y l k Hxy Hrel IH]; [constructor|].
  apply Forall_cons in Hall as [Hx Hall]. constructor; auto.
Qed.

(** What [save_model] writes for a storable table: one entry per matchbox,
    in the order of the table and under the same state names, with the
    weights of the matchbox in order and records that load as its moves. *)
Lemma storable_dump_entries mbs (model_json : Json.model_json) :
  storable mbs →
  dump_matchboxes (dict_items mbs) [] = Ok model_json →
  dict_keys model_json = dict_keys mbs ∧
  Forall2 (λ entry written,
             written.1 = entry.1 ∧
             beads <$> written.2 = dict_values (moves_and_beads entry.2) ∧
             load_moves written.2 [] = Ok (moves_and_beads entry.2))
          (dict_items mbs) (dict_items model_json).
Proof.
  intros [Hnd Hall] Hdump.
  destruct (dump_matchboxes_entries _ [] _ Hnd Hdump) as (rest & -> & Hrest).
  simpl. split.
  - unfold dict_keys, dict_items in *. clear -Hrest.
    induction Hrest as [|[s mb] [s' recs] ?? [Hs _] _ IH]; csimpl; [done|].
    simpl in Hs. by rewrite Hs, IH.
  - unfold dict_items in *.
    eapply (Forall2_Forall_impl storable_box); [|exact Hall|exact Hrest].
    intros entry written Hbox [Hs Hlist].
    destruct (storable_box_reload _ Hbox) as (moves_list & Hlist' & Hload & _).
    unfold dict_items in Hlist'.
    assert (moves_list = written.2) as -> by congruence.
    split_and!; [done| |done]. by apply moves_list_of_weights in Hlist.
Qed.

(** C8, as the code has it.  With a game name given, [__init__] follows
    three cases in this order.  When the model file of the game and player
    exists, the agent's table is what [import_model] loads from it,
    whatever table of states and moves was supplied, and no file changes.
    When it does not exist and a table was supplied, [create_model] builds
    a table with the states of the supplied one, each with the moves listed
    for it, every one at 3 beads, and calls [save_model]; the file is then
    imported.  A construction that returns has every weight at 3 and has
    written a file whose every record holds 3 beads.  For a table whose
    moves are pairs of pairs of integers or strings the construction does
    return, with exactly the table built, and the file written under the
    model path holds one entry per state, in the order of the table, with
    one record of 3 beads per move that loads as that move: loading the
    file into an empty table gives the table built, and so does every later
    construction for the game and player.  When a move of the table built
    does not unpack as a pair of pairs, [save_model] raises, the
    construction fails and no file is written.  When the file does not
    exist and no table was supplied, the construction raises
    [FileNotFoundError] and writes nothing. *)
Theorem init_policy_order base_dir pos name table_opt fs :
  let path := default_model_path base_dir name pos in
  let kw := Kwargs pos (Some name) table_opt in
  (∀ content, fs !! path = Some content →
     __init__ base_dir kw fs =
       (match (load_into content []).1 with
        | Ok _ => Ok (Menace.mk pos name table_opt path (load_into content []).2)
        | Raise e => Raise e
        end, fs)) ∧
  (∀ table, fs !! path = None → table_opt = Some table →
     let fresh := fresh_table table 3 in
     (all_weights (λ beads, beads = 3) fresh ∧
      (∀ state, state ∈ dict_keys fresh ↔ state ∈ dict_keys table) ∧
      (∀ state matchbox, (state, matchbox) ∈ dict_items fresh →
         ∃ moves, (state, moves) ∈ dict_items table ∧
           Matchbox.state matchbox = state ∧
           ∀ move, move ∈ dict_keys (moves_and_beads matchbox) ↔ move ∈ moves)) ∧
     __init__ base_dir kw fs =
       match dump_matchboxes (dict_items fresh) [] with
       | Ok model_json =>
           (match (load_into model_json fresh).1 with
            | Ok _ => Ok (Menace.mk pos name table_opt path
                            (load_into model_json fresh).2)
            | Raise e => Raise e
            end, <[path := model_json]> fs)
       | Raise e => (Raise e, fs)
       end ∧
     (∀ me fs', __init__ base_dir kw fs = (Ok me, fs') →
        all_weights (λ beads, beads = 3) (matchboxes me) ∧
        ∃ model_json, fs' = <[path := model_json]> fs ∧
          all_beads (λ beads, beads = 3) model_json) ∧
     (codec_table table →
        ∃ model_json,
          dump_matchboxes (dict_items fresh) [] = Ok model_json ∧
          __init__ base_dir kw fs =
            (Ok (Menace.mk pos name table_opt path fresh),
             <[path := model_json]> fs) ∧
          dict_keys model_json = dict_keys fresh ∧
          Forall2 (λ entry written,
                     written.1 = entry.1 ∧
                     beads <$> written.2
                       = dict_values (moves_and_beads entry.2) ∧
                     load_moves written.2 [] = Ok (moves_and_beads entry.2))
                  (dict_items fresh) (dict_items model_json) ∧
          load_into model_json [] = (Ok tt, fresh) ∧
          (∀ table_opt',
             __init__ base_dir (Kwargs pos (Some name) table_opt')
                      (<[path := model_json]> fs)
               = (Ok (Menace.mk pos name table_opt' path fresh),
                  <[path := model_json]> fs))) ∧
     (∀ matchbox move,
        matchbox ∈ dict_values fresh →
        move ∈ dict_keys (moves_and_beads matchbox) →
        is_ok (unpack_move move) = false →
        ∃ e, __init__ base_dir kw fs = (Raise e, fs))) ∧
  (fs !! path = None → table_opt = None →
     __init__ base_dir kw fs = (Raise model_not_found, fs)).
Proof.
  simpl. split_and!.
  - intros content. apply init_import.
  - intros table Hfile ->.
    pose proof (init_create base_dir pos name table fs Hfile) as Hinit.
    split_and!.
    + apply fresh_table_all_weights.
    + intros state. unfold fresh_table. rewrite fresh_into_keys.
      split; [intros [Hin|Hin]; [inversion Hin | done] | by right].
    + intros state matchbox Hin.
      assert (Hall : Forall
        (λ entry, ∃ moves, (entry.1, moves) ∈ dict_items table ∧
           Matchbox.state entry.2 = entry.1 ∧
           ∀ move, move ∈ dict_keys (moves_and_beads entry.2) ↔ move ∈ moves)
        (dict_items (fresh_table table 3))).
      { apply fresh_into_items; [constructor|].
        intros state' moves Hin'. exists moves. simpl. split_and!; [done..|].
        intros move. unfold fresh_beads. rewrite fresh_beads_acc_keys.
        split; [intros [Hm|Hm]; [inversion Hm | done] | by right]. }
      rewrite Forall_forall in Hall. exact (Hall _ Hin).
    + exact Hinit.
    + intros me fs'. rewrite Hinit.
      destruct (dump_matchboxes _ _) as [model_json|e] eqn:Hdump; [|done].
      pose proof (dump_fresh_all_beads _ _ _ Hdump) as Hbeads.
      pose proof (load_into_all_weights _ model_json (fresh_table table 3)
                    Hbeads (fresh_table_all_weights table 3)) as Hweights.
      destruct (load_into model_json _) as [[[]|e] mbs]; simpl in *; [|done].
      intros [= <- <-]. split; [done | by exists model_json].
    + intros Hcodec.
      pose proof (fresh_table_storable table 3 Hcodec) as Hst.
      pose proof Hst as [Hnd Hall].
      destruct (dump_load_fresh (dict_items (fresh_table table 3)) [] [])
        as (model_json & Hdump & Hfresh); [done..|].
      simpl in Hdump, Hfresh. unfold dict_items in Hfresh.
      pose proof (storable_reload _ _ Hst Hdump) as Hsame.
      destruct (storable_dump_entries _ _ Hst Hdump) as [Hkeys Hentries].
      exists model_json. split_and!; [done| |done..|].
      * by rewrite Hinit, Hdump, Hsame.
      * intros table_opt'.
        rewrite (init_import _ _ _ _ _ model_json) by by rewrite lookup_insert_eq.
        by rewrite Hfresh.
    + intros matchbox move Hbox Hmove Hfail. rewrite Hinit.
      destruct (dump_matchboxes _ _) as [model_json|e] eqn:Hdump; [|by exists e].
      exfalso.
      pose proof (dump_matchboxes_ok (dict_items (fresh_table table 3)) [])
        as [Hok _].
      rewrite Hdump in Hok. specialize (Hok eq_refl).
      rewrite Forall_forall in Hok.
      apply list_elem_of_fmap in Hbox as ([state matchbox'] & -> & Hin).
      specialize (Hok _ Hin). simpl in Hok.
      apply moves_list_of_ok in Hok. rewrite Forall_forall in Hok.
      specialize (Hok _ Hmove). congruence.
  - intros Hfile ->. unfold __init__, os_path_exists. simpl.
    by rewrite bool_decide_false by (rewrite Hfile; by intros [? [=]]).
Qed.

Lemma init_policy_order_witness :
  __init__ Examples.base_dir
    (Kwargs (Some 1) (Some "game") (Some Examples.table_coords))
    Examples.files_with_model
    = (Ok (Menace.mk (Some 1) "game" (Some Examples.table_coords)
             "/srv/menace/models/game_player1_menace_model.json"
             [("b7", Matchbox.mk "b7" [(Examples.coords 1 0 0 0, 5);
                                       (Examples.coords 1 1 0 1, 1)])]),
       Examples.files_with_model) ∧
  (∃ model_json,
     let fs' :=
       <["/srv/menace/models/game_player1_menace_model.json" := model_json]>
         (∅ : FS) in
     __init__ Examples.base_dir
       (Kwargs (Some 1) (Some "game") (Some Examples.table_coords)) ∅
       = (Ok Examples.agent_built, fs') ∧
     dict_keys model_json = ["b0"; "end"] ∧
     __init__ Examples.base_dir (Kwargs (Some 1) (Some "game") None) fs'
       = (Ok (Menace.mk (Some 1) "game" None
                "/srv/menace/models/game_player1_menace_model.json"
                (matchboxes Examples.agent_built)), fs')) ∧
  (∃ e, __init__ Examples.base_dir
          (Kwargs (Some 1) (Some "game") (Some Examples.table_S0)) ∅
          = (Raise e, ∅)) ∧
  __init__ Examples.base_dir (Kwargs (Some 1) (Some "game") None) ∅
    = (Raise model_not_found, ∅).
Proof.
  destruct (init_policy_order Examples.base_dir (Some 1) "game"
              (Some Examples.table_coords) Examples.files_with_model)
    as (Himport & _ & _).
  destruct (init_policy_order Examples.base_dir (Some 1) "game"
              (Some Examples.table_coords) ∅) as (_ & Hcreate & _).
  destruct (init_policy_order Examples.base_dir (Some 1) "game"
              (Some Examples.table_S0) ∅) as (_ & Hstrings & _).
  destruct (init_policy_order Examples.base_dir (Some 1) "game" None ∅)
    as (_ & _ & Hnone).
  split_and!.
  - rewrite (Himport Examples.stored_model); reflexivity.
  - destruct (Hcreate Examples.table_coords) as (_ & _ & _ & Hcodec & _);
      [reflexivity..|].
    destruct Hcodec as (model_json & _ & Hinit & Hkeys & _ & _ & Hlater);
      [compute_done|].
    exists model_json. split_and!; [exact Hinit | exact Hkeys | apply Hlater].
  - destruct (Hstrings Examples.table_S0) as (_ & _ & _ & _ & Hfail);
      [reflexivity..|].
    apply (Hfail Examples.box_S0 Examples.move_A);
      [vm_compute; left | compute_done | reflexivity].
  - apply Hnone; reflexivity.
Defined.

(** Where the claim of C8 fails.  With no model file, the table of the
    scenario, the state [S0] with the moves [A] and [B], is not persisted:
    [save_model] unpacks every move as a pair of pairs, the string [A] is
    none, and the construction raises [ValueError] with no file written,
    although the same table with moves that are pairs of board coordinates
    is built and saved. *)
Lemma init_scenario_table_not_persisted :
  __init__ Examples.base_dir
    (Kwargs (Some 1) (Some "game") (Some Examples.table_S0)) ∅
    = (Raise ValueError, ∅) ∧
  fresh_table Examples.table_S0 3 = [("S0", Examples.box_S0)] ∧
  unpack_move Examples.move_A = Raise ValueError ∧
  is_ok (__init__ Examples.base_dir
           (Kwargs (Some 1) (Some "game") (Some Examples.table_coords)) ∅).1
    = true.
Proof. split_and!; by vm_compute. Qed.
End init_facts.


(** * Further properties *)

(** ** One matchbox *)

Section matchbox_more.
Import Matchbox Calls.
Implicit Types (self : Matchbox.t) (move : Move) (change beads : Z).

Lemma dict_set_set {K V} `{EqDecision K} (d : dict K V) k v v' :
  dict_set (dict_set d k v) k v' = dict_set d k v'.
Proof.
  induction d as [|[k0 v0] d IH]; simpl.
  - by rewrite decide_True.
  - destruct (decide (k0 = k)) as [->|Hne]; simpl.
    + by rewrite decide_True.
    + rewrite decide_False by done. by rewrite IH.
Qed.

(** X1.  On a move of the table, whatever weight is stored for it,
    [_set_beads] returns; the new weight of the move is the old one plus the
    change, clamped, and so lies between 1 and 15 even if the old one did
    not; the weight of every other move, the list of keys and the state
    name are as before. *)
Theorem set_beads_effect self move change beads :
  dict_get (moves_and_beads self) move = Some beads →
  ∃ self', _set_beads self move change = Ok self' ∧
    get_beads self' move = Z.min (Z.max 1 (beads + change)) 15 ∧
    1 ≤ get_beads self' move ≤ 15 ∧
    (∀ move', move' ≠ move → get_beads self' move' = get_beads self move') ∧
    dict_keys (moves_and_beads self') = dict_keys (moves_and_beads self) ∧
    state self' = state self.
Proof.
  intros Hget. rewrite (set_beads_present _ _ _ _ Hget). eexists. split; [done|].
  unfold get_beads. simpl. rewrite dict_get_set_eq. simpl.
  unfold min_beads, max_beads. split_and!; [done | lia | lia | | | done].
  - intros move' Hne. by rewrite dict_get_set_ne.
  - apply dict_keys_set_present. by rewrite Hget.
Qed.

Lemma set_beads_effect_witness :
  ∃ self', _set_beads (Matchbox.mk "s" [(PInt 0, 40); (PInt 1, -7)]) (PInt 1) (-1)
           = Ok self' ∧
    get_beads self' (PInt 1) = 1 ∧
    1 ≤ get_beads self' (PInt 1) ≤ 15 ∧
    (∀ move', move' ≠ PInt 1 →
       get_beads self' move'
       = get_beads (Matchbox.mk "s" [(PInt 0, 40); (PInt 1, -7)]) move') ∧
    dict_keys (moves_and_beads self') = [PInt 0; PInt 1] ∧
    state self' = "s".
Proof.
  apply (set_beads_effect (Matchbox.mk "s" [(PInt 0, 40); (PInt 1, -7)])
           (PInt 1) (-1) (-7)).
  reflexivity.
Defined.

(** X2.  Below the ceiling a [punish] undoes a [reward], and above the floor
    a [reward] undoes a [punish]: the matchbox is again the one before the
    two calls.  At the ceiling and at the floor they do not cancel: from 15
    beads [reward] then [punish] leaves 14, from 1 bead [punish] then
    [reward] leaves 2. *)
Theorem reward_punish_cancel self move beads :
  dict_get (moves_and_beads self) move = Some beads →
  (1 ≤ beads ≤ 14 →
     ∃ self1, reward self move = Ok self1 ∧ punish self1 move = Ok self) ∧
  (2 ≤ beads ≤ 15 →
     ∃ self1, punish self move = Ok self1 ∧ reward self1 move = Ok self) ∧
  (beads = 15 →
     ∃ self1 self2, reward self move = Ok self1 ∧ punish self1 move = Ok self2 ∧
       get_beads self2 move = 14) ∧
  (beads = 1 →
     ∃ self1 self2, punish self move = Ok self1 ∧ reward self1 move = Ok self2 ∧
       get_beads self2 move = 2).
Proof.
  intros Hget.
  assert (Htwo : ∀ c1 c2,
            ∃ self1, _set_beads self move c1 = Ok self1 ∧
              _set_beads self1 move c2 =
                Ok (Matchbox.mk (state self)
                      (dict_set (moves_and_beads self) move
                         (Z.min (Z.max 1 (Z.min (Z.max 1 (beads + c1)) 15 + c2)) 15)))).
  { intros c1 c2. rewrite (set_beads_present _ _ _ _ Hget). eexists. split; [done|].
    unfold _set_beads. simpl. rewrite dict_get_set_eq, dict_set_set. done. }
  assert (Hback : ∀ c1 c2,
            Z.min (Z.max 1 (Z.min (Z.max 1 (beads + c1)) 15 + c2)) 15 = beads →
            ∃ self1, _set_beads self move c1 = Ok self1 ∧
                     _set_beads self1 move c2 = Ok self).
  { intros c1 c2 Hsame. destruct (Htwo c1 c2) as (self1 & H1 & H2).
    exists self1. split; [done|]. rewrite H2, Hsame, dict_set_id by done.
    by destruct self. }
  unfold reward, punish. split_and!.
  - intros Hb. apply Hback. lia.
  - intros Hb. apply Hback. lia.
  - intros ->. destruct (Htwo 1 (-1)) as (self1 & H1 & H2).
    exists self1. eexists. split_and!; [done..|].
    unfold get_beads. simpl. by rewrite dict_get_set_eq.
  - intros ->. destruct (Htwo (-1) 1) as (self1 & H1 & H2).
    exists self1. eexists. split_and!; [done..|].
    unfold get_beads. simpl. by rewrite dict_get_set_eq.
Qed.

Lemma reward_punish_cancel_witness :
  (∃ self1, reward Examples.box_S0 Examples.move_A = Ok self1 ∧
            punish self1 Examples.move_A = Ok Examples.box_S0) ∧
  (∃ self1 self2,
     reward Examples.box_coords (Examples.coords 2 1 1 1) = Ok self1 ∧
     punish self1 (Examples.coords 2 1 1 1) = Ok self2 ∧
     get_beads self2 (Examples.coords 2 1 1 1) = 14).
Proof.
  split.
  - apply (reward_punish_cancel Examples.box_S0 Examples.move_A 3);
      [reflexivity | lia].
  - apply (reward_punish_cancel Examples.box_coords (Examples.coords 2 1 1 1) 15);
      reflexivity.
Defined.

(** X3.  From a weight between 1 and 15, [k] rewards of a move in a row all
    return and leave it at the weight plus [k], at most 15; [k] punishments
    leave it at the weight minus [k], at least 1. *)
Theorem repeated_calls_saturate self move beads (k : nat) :
  dict_get (moves_and_beads self) move = Some beads →
  1 ≤ beads ≤ 15 →
  (∃ self', perform_all self (replicate k (Reward move)) = Ok self' ∧
     get_beads self' move = Z.min (beads + Z.of_nat k) 15) ∧
  (∃ self', perform_all self (replicate k (Punish move)) = Ok self' ∧
     get_beads self' move = Z.max (beads - Z.of_nat k) 1).
Proof.
  intros Hget Hb.
  assert (Hrun : ∀ c change,
            (∀ self0, perform self0 c = _set_beads self0 move change) →
            ∀ (f : Z → nat → Z),
              (∀ b, 1 ≤ b ≤ 15 → f b 0%nat = b) →
              (∀ b n, 1 ≤ b ≤ 15 →
                 f (Z.min (Z.max 1 (b + change)) 15) n = f b (S n)) →
              ∃ self', perform_all self (replicate k c) = Ok self' ∧
                       get_beads self' move = f beads k).
  { intros c change Hperf f Hf0 HfS.
    revert self beads Hget Hb. induction k as [|k IH]; intros self beads Hget Hb.
    - exists self. split; [done|]. unfold get_beads. rewrite Hget. simpl.
      by rewrite Hf0.
    - simpl. rewrite Hperf, (set_beads_present _ _ _ _ Hget). simpl.
      set (self1 := Matchbox.mk _ _).
      destruct (IH self1 (Z.min (Z.max 1 (beads + change)) 15))
        as (self' & Hrun & Hbeads).
      + simpl. unfold min_beads, max_beads. by rewrite dict_get_set_eq.
      + lia.
      + exists self'. split; [done|]. rewrite Hbeads. by apply HfS. }
  split.
  - apply (Hrun (Reward move) 1 (λ _, eq_refl)
             (λ b n, Z.min (b + Z.of_nat n) 15)); intros; lia.
  - apply (Hrun (Punish move) (-1) (λ _, eq_refl)
             (λ b n, Z.max (b - Z.of_nat n) 1)); intros; lia.
Qed.

Lemma repeated_calls_saturate_witness :
  (∃ self', perform_all Examples.box_S0 (replicate 20 (Reward Examples.move_A))
            = Ok self' ∧
     get_beads self' Examples.move_A = 15) ∧
  (∃ self', perform_all Examples.box_S0 (replicate 20 (Punish Examples.move_A))
            = Ok self' ∧
     get_beads self' Examples.move_A = 1).
Proof.
  apply (repeated_calls_saturate Examples.box_S0 Examples.move_A 3 20);
    [reflexivity | lia].
Defined.
End matchbox_more.

(** ** The weighted draw *)

Section draw_more.
Import Matchbox Shape.
Implicit Types (self : Matchbox.t) (rnd x : Float.t) (ws a : list Z).

Lemma sum_list_app ws1 ws2 : sum_list (ws1 ++ ws2) = sum_list ws1 + sum_list ws2.
Proof. induction ws1 as [|w ws1 IH]; simpl; lia. Qed.

Lemma sum_take_S ws (i : nat) w :
  ws !! i = Some w → sum_list (take (S i) ws) = sum_list (take i ws) + w.
Proof.
  intros Hw. rewrite (take_S_r _ _ _ Hw), sum_list_app. simpl. lia.
Qed.

Lemma accumulate_from_lookup acc ws (i : nat) :
  (i < length ws)%nat →
  accumulate_from acc ws !! i = Some (acc + sum_list (take (S i) ws)).
Proof.
  revert acc i. induction ws as [|w ws IH]; intros acc i Hi; simpl in *; [lia|].
  destruct i as [|i]; simpl.
  - rewrite ?take_0. simpl. f_equal. lia.
  - rewrite IH by lia. simpl. f_equal. lia.
Qed.

Lemma sum_take_mono ws (i j : nat) :
  Forall (λ b, 0 ≤ b) ws → (i ≤ j)%nat →
  sum_list (take i ws) ≤ sum_list (take j ws).
Proof.
  intros Hpos. revert i j. induction Hpos as [|w ws Hw Hpos IH]; intros i j Hij.
  - by rewrite !take_nil.
  - destruct i as [|i], j as [|j]; simpl; try lia.
    + specialize (IH 0%nat j ltac:(lia)). rewrite take_0 in IH. simpl in IH. lia.
    + specialize (IH i j ltac:(lia)). lia.
Qed.

(** On a list in ascending order the search stops at the first position
    whose item exceeds [x], or at its upper bound. *)
Lemma bisect_spec a x lo hi :
  (lo ≤ hi)%nat → (hi ≤ length a)%nat →
  (∀ (i j : nat) u v, (i ≤ j)%nat → a !! i = Some u → a !! j = Some v → u ≤ v) →
  ∃ i : nat, bisect a x lo hi = Ok i ∧ (lo ≤ i ≤ hi)%nat ∧
    (∀ (j : nat) v, (lo ≤ j < i)%nat → a !! j = Some v →
       Float.lt_int x v = false) ∧
    ((i < hi)%nat → ∀ v, a !! i = Some v → Float.lt_int x v = true).
Proof.
  funelim (bisect a x lo hi); intros Hle Hhi Hsorted;
    pose proof (Nat.div_mod_eq (lo + hi) 2);
    pose proof (Nat.mod_upper_bound (lo + hi) 2 ltac:(lia)).
  - exists lo. split_and!; [done | lia | lia | intros; lia | intros; lia].
  - match goal with
    | Hmid : _ !! _ = None |- _ => apply lookup_ge_None in Hmid; lia
    end.
  - match goal with
    | IH : _ → _ → _ → ∃ i : nat, bisect _ _ _ _ = Ok i ∧ _ |- _ =>
        destruct IH as (i & Hi & Hb & Hbelow & Habove); [lia | lia | done |]
    end.
    exists i. split_and!; [done | lia | lia | done |].
    intros Hlt v Hv. destruct (decide (i = (lo + hi) / 2)%nat) as [->|Hne].
    + match goal with
      | Hmid : a !! _ = Some ?u, Hcmp : Float.lt_int x ?u = true |- _ =>
          rewrite Hmid in Hv; by injection Hv as <-
      end.
    + apply Habove; [lia | done].
  - match goal with
    | IH : _ → _ → _ → ∃ i : nat, bisect _ _ _ _ = Ok i ∧ _ |- _ =>
        destruct IH as (i & Hi & Hb & Hbelow & Habove); [lia | lia | done |]
    end.
    exists i. split_and!; [done | lia | lia | | done].
    intros j v Hj Hv.
    destruct (decide ((lo + hi) / 2 + 1 ≤ j)%nat) as [Hge|Hlt].
    + apply (Hbelow j); [lia | done].
    + match goal with
      | Hmid : a !! _ = Some ?u, Hcmp : Float.lt_int x ?u = false |- _ =>
          destruct (Float.lt_int x v) eqn:Hxv; [|done];
          rewrite (lt_int_mono x v u Hxv) in Hcmp; [done|];
          apply (Hsorted j ((lo + hi) / 2)%nat); [lia | done..]
      end.
Qed.

(** X4.  What [draw_bead] does is decided by the table alone, not by the
    value of [random()].  On an empty table it raises [IndexError].  On any
    other table the total of the weights decides: a total beyond the range
    of floats, [int_limit] or more in absolute value, raises
    [OverflowError]; a total of nothing or less raises [ValueError]; and
    any other total returns one of the keys. *)
Theorem draw_bead_outcome self rnd :
  (moves_and_beads self = [] → draw_bead self rnd = Raise IndexError) ∧
  (moves_and_beads self ≠ [] →
   Float.int_limit ≤ Z.abs (sum_list (dict_values (moves_and_beads self))) →
   draw_bead self rnd = Raise OverflowError) ∧
  (moves_and_beads self ≠ [] →
   - Float.int_limit < sum_list (dict_values (moves_and_beads self)) ≤ 0 →
   draw_bead self rnd = Raise ValueError) ∧
  (moves_and_beads self ≠ [] →
   0 < sum_list (dict_values (moves_and_beads self)) < Float.int_limit →
   ∃ move, draw_bead self rnd = Ok move ∧
           move ∈ dict_keys (moves_and_beads self)).
Proof.
  split_and!.
  - intros Hnil. unfold draw_bead. by rewrite Hnil.
  - apply draw_bead_overflow.
  - intros Hne Hsum. rewrite draw_bead_run by done. simpl.
    destruct (of_int_finite (sum_list (dict_values (moves_and_beads self))))
      as (m & e & -> & Hm); [lia|].
    simpl. by destruct (Z.leb_spec m 0); [|lia].
  - apply draw_bead_returns.
Qed.

Lemma draw_bead_outcome_witness :
  draw_bead (Matchbox.mk "end" []) Examples.one_half = Raise IndexError ∧
  draw_bead Examples.box_heavy Examples.three_tenths = Raise OverflowError ∧
  draw_bead (Matchbox.mk "s" [(PInt 0, 2); (PInt 1, -2)]) Examples.one_half
    = Raise ValueError ∧
  (∃ move, draw_bead (Matchbox.mk "s" [(PInt 0, -1); (PInt 1, 2)])
             Examples.one_half = Ok move ∧
           move ∈ [PInt 0; PInt 1]).
Proof.
  split_and!.
  - apply (draw_bead_outcome (Matchbox.mk "end" []) Examples.one_half).
    reflexivity.
  - apply (draw_bead_outcome Examples.box_heavy Examples.three_tenths);
      [discriminate | by vm_compute].
  - apply (draw_bead_outcome (Matchbox.mk "s" [(PInt 0, 2); (PInt 1, -2)])
             Examples.one_half);
      [discriminate | split; by vm_compute].
  - apply (draw_bead_outcome (Matchbox.mk "s" [(PInt 0, -1); (PInt 1, 2)])
             Examples.one_half);
      [discriminate | split; by vm_compute].
Defined.

(** X5.  The draw is by weight, on the float product.  For weights that
    are not negative and add up to more than nothing and less than
    [int_limit], [draw_bead] returns, for every value [rnd] of [random()],
    the move at the position [i] of the table found as follows: with [x]
    the float product of [rnd] and the total as a float, [x] is not below
    the sum of the weights up to and including any position before [i],
    and, unless [i] is the last position, [x] is below the sum of the
    weights up to and including [i].  So for a value that is not negative
    a move of weight 0 is drawn only at the last position. *)
Theorem draw_bead_weighted self rnd :
  let ws := dict_values (moves_and_beads self) in
  Forall (λ beads, 0 ≤ beads) ws → 0 < sum_list ws < Float.int_limit →
  ∃ (i : nat) move total,
    Float.of_int (sum_list ws) = Ok total ∧
    draw_bead self rnd = Ok move ∧
    dict_keys (moves_and_beads self) !! i = Some move ∧
    (∀ j : nat, (j < i)%nat →
       Float.lt_int (Float.mul rnd total) (sum_list (take (S j) ws)) = false) ∧
    ((i < length ws - 1)%nat →
       Float.lt_int (Float.mul rnd total) (sum_list (take (S i) ws)) = true) ∧
    (Float.lt_int rnd 0 = false → ws !! i = Some 0 → i = (length ws - 1)%nat).
Proof.
  intros ws Hpos Hsum.
  assert (Hne : moves_and_beads self ≠ []).
  { intros Hnil. unfold ws in Hsum. rewrite Hnil in Hsum. simpl in Hsum. lia. }
  assert (Hlen : length ws = length (dict_keys (moves_and_beads self))).
  { unfold ws, dict_values, dict_keys. by rewrite !length_fmap. }
  assert (Hn : (0 < length ws)%nat).
  { unfold ws, dict_values. destruct (moves_and_beads self); [done | simpl; lia]. }
  destruct (of_int_finite (sum_list ws)) as (m & e & Hconv & Hm); [lia|].
  rewrite draw_bead_run by done. fold ws. simpl. rewrite Hconv. simpl.
  destruct (Z.leb_spec m 0); [lia|].
  set (x := Float.mul rnd (Float.Finite m e)).
  destruct (bisect_spec (accumulate ws) x 0 (length ws - 1))
    as (i & Hrun & Hi & Hbelow & Habove).
  { lia. }
  { unfold accumulate. rewrite accumulate_from_length. lia. }
  { intros j1 j2 u v Hj H1 H2. unfold accumulate in *.
    assert (j2 < length ws)%nat.
    { apply lookup_lt_Some in H2. by rewrite accumulate_from_length in H2. }
    rewrite accumulate_from_lookup in H1, H2 by lia.
    injection H1 as <-. injection H2 as <-.
    pose proof (sum_take_mono ws (S j1) (S j2) Hpos ltac:(lia)). lia. }
  rewrite <- Hlen, Hrun.
  destruct (lookup_lt_is_Some_2 (dict_keys (moves_and_beads self)) i)
    as [move Hmove]; [lia|].
  rewrite Hmove. exists i, move, (Float.Finite m e).
  assert (Hbefore : ∀ j : nat, (j < i)%nat →
            Float.lt_int x (sum_list (take (S j) ws)) = false).
  { intros j Hj. apply (Hbelow j); [lia|]. unfold accumulate.
    rewrite accumulate_from_lookup by lia. f_equal; lia. }
  assert (Hat : (i < length ws - 1)%nat →
            Float.lt_int x (sum_list (take (S i) ws)) = true).
  { intros Hlt. apply Habove; [done|]. unfold accumulate.
    rewrite accumulate_from_lookup by lia. f_equal; lia. }
  split_and!; [done..|].
  intros Hrnd Hzero. destruct (decide (i < length ws - 1)%nat) as [Hlt|]; [|lia].
  exfalso. specialize (Hat Hlt). rewrite (sum_take_S _ _ _ Hzero) in Hat.
  destruct i as [|i].
  - rewrite take_0 in Hat. simpl in Hat. unfold x in Hat.
    rewrite mul_not_negative in Hat; [done | lia | done].
  - rewrite Z.add_0_r, Hbefore in Hat; [done | lia].
Qed.

Lemma draw_bead_weighted_witness :
  (let ws := dict_values (moves_and_beads Examples.box_two_one) in
   ∃ (i : nat) move total,
     Float.of_int (sum_list ws) = Ok total ∧
     draw_bead Examples.box_two_one Examples.below_two_thirds = Ok move ∧
     dict_keys (moves_and_beads Examples.box_two_one) !! i = Some move ∧
     (∀ j : nat, (j < i)%nat →
        Float.lt_int (Float.mul Examples.below_two_thirds total)
          (sum_list (take (S j) ws)) = false) ∧
     ((i < length ws - 1)%nat →
        Float.lt_int (Float.mul Examples.below_two_thirds total)
          (sum_list (take (S i) ws)) = true) ∧
     (Float.lt_int Examples.below_two_thirds 0 = false →
      ws !! i = Some 0 → i = (length ws - 1)%nat)) ∧
  draw_bead Examples.box_two_one Examples.below_two_thirds
    = Ok (Examples.coords 2 1 1 1) ∧
  Float.lt_int Examples.below_two_thirds 1 = true ∧
  6004799503160661 * 3 < 2 * 2 ^ 53.
Proof.
  split_and!.
  - apply (draw_bead_weighted Examples.box_two_one Examples.below_two_thirds).
    + repeat first [apply Forall_nil_2 | apply Forall_cons_2]; by vm_compute.
    + split; by vm_compute.
  - by vm_compute.
  - reflexivity.
  - reflexivity.
Defined.
End draw_more.

(** ** Saving and loading *)

Section persist_more.
Import Matchbox Menace Spec Shape.
Implicit Types (wd : world) (me : Menace.t) (state : string) (move : Move).
Implicit Types (mbs : dict string Matchbox.t) (items : list (string * Matchbox.t)).

(** X6.  [save_model] leaves the agent as it is and touches no file but
    the one at the model path.  It returns exactly when every move of every
    matchbox unpacks as a pair of pairs; when it raises, no file has changed
    at all.  When it returns, for distinct states, the file holds one entry
    per matchbox, in the order of the table and under the same state names,
    and the beads of its records are the weights of the matchbox, in
    order. *)
Theorem save_model_effect wd :
  let res := save_model wd in
  let mbs := matchboxes (self wd) in
  self res.2 = self wd ∧
  (∀ path, path ≠ model_path (self wd) → files res.2 !! path = files wd !! path) ∧
  (is_ok res.1 = true ↔
     Forall (λ matchbox,
               Forall (λ move, is_ok (unpack_move move) = true)
                      (dict_keys (moves_and_beads matchbox)))
            (dict_values mbs)) ∧
  (is_ok res.1 = false → files res.2 = files wd) ∧
  (NoDup (dict_keys mbs) → is_ok res.1 = true →
     ∃ model_json,
       files res.2 !! model_path (self wd) = Some model_json ∧
       dict_keys model_json = dict_keys mbs ∧
       Forall2 (λ entry written,
                  written.1 = entry.1 ∧
                  beads <$> written.2 = dict_values (moves_and_beads entry.2))
               (dict_items mbs) (dict_items model_json)).
Proof.
  simpl. rewrite save_model_run.
  pose proof (dump_matchboxes_ok (dict_items (matchboxes (self wd))) []) as Hok.
  assert (Hshape :
    Forall (λ entry : string * Matchbox.t,
              is_ok (moves_list_of (dict_items (moves_and_beads entry.2))) = true)
           (dict_items (matchboxes (self wd)))
    ↔ Forall (λ matchbox,
                Forall (λ move, is_ok (unpack_move move) = true)
                       (dict_keys (moves_and_beads matchbox)))
             (dict_values (matchboxes (self wd)))).
  { unfold dict_values, dict_items. rewrite Forall_fmap.
    apply Forall_iff. intros [state matchbox]. simpl. apply moves_list_of_ok. }
  rewrite Hshape in Hok. clear Hshape.
  destruct (dump_matchboxes _ _) as [model_json|e] eqn:Hdump; simpl in *.
  - split_and!; [done | | done | done |].
    + intros path Hne. by rewrite lookup_insert_ne.
    + intros Hnd _. exists model_json. rewrite lookup_insert_eq.
      destruct (dump_matchboxes_entries _ [] _ Hnd Hdump) as (rest & -> & Hrest).
      simpl. split_and!; [done| |].
      * unfold dict_keys, dict_items in *. clear -Hrest.
        induction Hrest as [|[s mb] [s' recs] ?? [Hs _] _ IH]; csimpl; [done|].
        simpl in Hs. by rewrite Hs, IH.
      * unfold dict_items. eapply Forall2_impl; [exact Hrest|].
        intros entry written [Hs Hlist]. split; [done|].
        by apply moves_list_of_weights in Hlist.
  - split_and!; [done | done | done | done | done].
Qed.

Lemma save_model_effect_witness :
  let res := save_model Examples.world_coords in
  self res.2 = Examples.agent_coords ∧
  is_ok res.1 = true ∧
  (∃ model_json,
     files res.2 !! "models/game_player1_menace_model.json" = Some model_json ∧
     dict_keys model_json = ["b0"; "end"]) ∧
  is_ok (save_model Examples.world_S0).1 = false ∧
  files (save_model Examples.world_S0).2 = ∅.
Proof.
  destruct (save_model_effect Examples.world_coords)
    as (Hself & _ & Hok & _ & Hfile).
  destruct (save_model_effect Examples.world_S0) as (_ & _ & _ & Hfail & _).
  split_and!.
  - exact Hself.
  - apply Hok. compute_done.
  - destruct Hfile as (model_json & Hlookup & Hkeys & _);
      [compute_done | reflexivity |].
    exists model_json. split; [exact Hlookup | exact Hkeys].
  - reflexivity.
  - apply Hfail. reflexivity.
Defined.

Lemma storable_save_load me fs :
  storable (matchboxes me) →
  ∃ model_json,
    let fs' := <[model_path me := model_json]> fs in
    save_model (World me fs) = (Ok tt, World me fs') ∧
    (∀ me0, matchboxes me0 = [] ∨ matchboxes me0 = matchboxes me →
       import_model (model_path me) (World me0 fs')
         = (Ok tt, World (with_matchboxes me0 (matchboxes me)) fs')) ∧
    (∀ base_dir pos name table_opt,
       default_model_path base_dir name pos = model_path me →
       __init__ base_dir (Kwargs pos (Some name) table_opt) fs'
         = (Ok (Menace.mk pos name table_opt (model_path me) (matchboxes me)),
            fs')).
Proof.
  intros Hst. pose proof Hst as [Hnd Hall].
  destruct (dump_load_fresh (dict_items (matchboxes me)) [] [])
    as (model_json & Hdump & Hfresh); [done..|].
  simpl in Hdump, Hfresh. unfold dict_items in Hfresh.
  pose proof (storable_reload _ _ Hst Hdump) as Hsame.
  exists model_json. simpl. split_and!.
  - rewrite save_model_run. simpl. by rewrite Hdump.
  - intros me0 Hme0. rewrite import_model_run. simpl.
    rewrite lookup_insert_eq. by destruct Hme0 as [-> | ->]; [rewrite Hfresh | rewrite Hsame].
  - intros base_dir pos name table_opt Hpath.
    rewrite (init_import _ _ _ _ _ model_json) by by rewrite Hpath, lookup_insert_eq.
    by rewrite Hfresh, Hpath.
Qed.


(** X7.  What is saved is what the next session loads.  For a storable
    table [save_model] returns, and afterwards importing the file into an
    agent with an empty table, or once more into the agent itself, gives
    exactly the table saved; and so does constructing an agent for the game
    and player position whose default path is the model path, whatever
    table of states and moves is passed along. *)
Theorem save_then_load me fs :
  storable (matchboxes me) →
  ∃ model_json,
    let fs' := <[model_path me := model_json]> fs in
    save_model (World me fs) = (Ok tt, World me fs') ∧
    (∀ me0, matchboxes me0 = [] ∨ matchboxes me0 = matchboxes me →
       import_model (model_path me) (World me0 fs')
         = (Ok tt, World (with_matchboxes me0 (matchboxes me)) fs')) ∧
    (∀ base_dir pos name table_opt,
       default_model_path base_dir name pos = model_path me →
       __init__ base_dir (Kwargs pos (Some name) table_opt) fs'
         = (Ok (Menace.mk pos name table_opt (model_path me) (matchboxes me)),
            fs')).
Proof. apply storable_save_load. Qed.

Lemma save_then_load_witness :
  ∃ model_json,
    let fs' := <[model_path Examples.agent_built := model_json]> ∅ in
    save_model (World Examples.agent_built ∅)
      = (Ok tt, World Examples.agent_built fs') ∧
    __init__ Examples.base_dir (Kwargs (Some 1) (Some "game") None) fs'
      = (Ok (Menace.mk (Some 1) "game" None (model_path Examples.agent_built)
               (matchboxes Examples.agent_built)), fs').
Proof.
  destruct (save_then_load Examples.agent_built ∅)
    as (model_json & Hsave & _ & Hinit).
  - split; [compute_done|].
    repeat first [apply Forall_nil_2 | apply Forall_cons_2];
      (split_and!; [reflexivity | compute_done | compute_done]).
  - exists model_json. split; [exact Hsave|]. apply Hinit. reflexivity.
Defined.

Lemma load_into_app (pre post : Json.model_json) mbs :
  load_into (pre ++ post) mbs =
    match load_into pre mbs with
    | (Ok _, mbs1) => load_into post mbs1
    | (Raise e, mbs1) => (Raise e, mbs1)
    end.
Proof.
  revert mbs. induction pre as [|[state_str moves_list] pre IH]; intros mbs; simpl.
  - done.
  - destruct (load_moves moves_list []); [apply IH | done].
Qed.

Lemma load_into_other (model_json : Json.model_json) mbs state :
  state ∉ dict_keys model_json →
  dict_get (load_into model_json mbs).2 state = dict_get mbs state.
Proof.
  unfold dict_keys. revert mbs.
  induction model_json as [|[state_str moves_list] model_json IH];
    intros mbs Hnotin; simpl; [done|].
  csimpl in Hnotin. apply not_elem_of_cons in Hnotin as [Hne Hnotin].
  destruct (load_moves moves_list []); [|done].
  rewrite IH by done. by rewrite dict_get_set_ne.
Qed.

(** X8.  [import_model] adds to the table and replaces in it, it does not
    start from nothing, and it is not all or nothing.  It changes no file
    and no attribute of the agent but the table; a missing file raises
    [FileNotFoundError] and changes nothing; the matchbox of a state that
    the file does not name is kept as it is; and when the records of some
    state cannot be loaded, the call raises at that state with the states
    before it in the file loaded and the ones after it not. *)
Theorem import_model_merges path wd :
  let res := import_model path wd in
  files res.2 = files wd ∧
  with_matchboxes (self res.2) [] = with_matchboxes (self wd) [] ∧
  (files wd !! path = None → res = (Raise (no_such_file path), wd)) ∧
  (∀ content, files wd !! path = Some content →
     (∀ state, state ∉ dict_keys content →
        dict_get (matchboxes (self res.2)) state
          = dict_get (matchboxes (self wd)) state) ∧
     (∀ pre state_str moves_list post e mbs1,
        content = pre ++ (state_str, moves_list) :: post →
        load_into pre (matchboxes (self wd)) = (Ok tt, mbs1) →
        load_moves moves_list [] = Raise e →
        res = (Raise e, World (with_matchboxes (self wd) mbs1) (files wd)))).
Proof.
  simpl. rewrite import_model_run.
  destruct (files wd !! path) as [content|] eqn:Hfile; simpl.
  - split_and!; [done | done | done |].
    intros content' [= <-]. split.
    + intros state Hnotin. by apply load_into_other.
    + intros pre state_str moves_list post e mbs1 -> Hpre Hbad.
      rewrite load_into_app, Hpre. simpl. by rewrite Hbad.
  - split_and!; [done | done | done | done].
Qed.

Lemma import_model_merges_witness :
  let wd := World Examples.agent_coords Examples.files_with_broken_model in
  let path := "/srv/menace/models/game_player1_menace_model.json" in
  import_model "nowhere.json" wd = (Raise (no_such_file "nowhere.json"), wd) ∧
  dict_get (matchboxes (self (import_model path wd).2)) "b0"
    = Some Examples.box_coords ∧
  import_model path (World Examples.agent_S0 Examples.files_with_broken_model)
    = (Raise TypeError,
       World (with_matchboxes Examples.agent_S0
                [("S0", Examples.box_S0);
                 ("b7", Matchbox.mk "b7" [(Examples.coords 1 0 0 0, 5)])])
             Examples.files_with_broken_model).
Proof.
  simpl. split_and!.
  - apply (import_model_merges "nowhere.json"
             (World Examples.agent_coords Examples.files_with_broken_model)).
    reflexivity.
  - destruct (import_model_merges
                "/srv/menace/models/game_player1_menace_model.json"
                (World Examples.agent_coords Examples.files_with_broken_model))
      as (_ & _ & _ & Hfile).
    destruct (Hfile Examples.broken_model eq_refl) as [Hkeep _].
    rewrite Hkeep; [reflexivity | compute_done].
  - destruct (import_model_merges
                "/srv/menace/models/game_player1_menace_model.json"
                (World Examples.agent_S0 Examples.files_with_broken_model))
      as (_ & _ & _ & Hfile).
    destruct (Hfile Examples.broken_model eq_refl) as [_ Hfail].
    apply (Hfail [("b7", [mk_record ((JInt 1, JInt 0), (JInt 0, JInt 0)) 5])]
             "b8" [mk_record ((JList [JInt 1], JInt 1), (JInt 0, JInt 1)) 2]
             [("b9", [mk_record ((JInt 2, JInt 2), (JInt 1, JInt 2)) 4])]);
      reflexivity.
Defined.

Lemma dict_keys_set_Forall {K V} `{EqDecision K} (P : K → Prop) (d : dict K V) k v :
  Forall P (dict_keys d) → P k → Forall P (dict_keys (dict_set d k v)).
Proof.
  rewrite !Forall_forall. intros Hall Hk k' [->|Hin]%dict_keys_set_elem; auto.
Qed.

Lemma hashable_atomic j v : hashable j = Ok v → atomic v = true.
Proof. destruct j; simpl; [by intros [= <-]..|done]. Qed.

(** Whatever [import_model] loads for a state has distinct moves, each a
    pair of pairs of integers or strings. *)
Lemma load_moves_shape moves_list (acc d : dict Move Z) :
  load_moves moves_list acc = Ok d →
  NoDup (dict_keys acc) →
  Forall (λ move, is_codec_move move = true) (dict_keys acc) →
  NoDup (dict_keys d) ∧ Forall (λ move, is_codec_move move = true) (dict_keys d).
Proof.
  revert acc.
  induction moves_list as [|[[[fr fc] [tr tc]] b] moves_list IH];
    intros acc; simpl.
  - by intros [= <-].
  - destruct (hashable fr) as [a1|] eqn:H1; simpl; [|done].
    destruct (hashable fc) as [a2|] eqn:H2; simpl; [|done].
    destruct (hashable tr) as [a3|] eqn:H3; simpl; [|done].
    destruct (hashable tc) as [a4|] eqn:H4; simpl; [|done].
    intros Hload Hnd Hcodec. apply (IH _ Hload).
    + by apply dict_set_NoDup.
    + apply dict_keys_set_Forall; [done|]. cbn.
      by rewrite (hashable_atomic _ _ H1), (hashable_atomic _ _ H2),
                 (hashable_atomic _ _ H3), (hashable_atomic _ _ H4).
Qed.

Lemma load_into_NoDup (model_json : Json.model_json) mbs :
  NoDup (dict_keys mbs) → NoDup (dict_keys (load_into model_json mbs).2).
Proof.
  revert mbs. induction model_json as [|[state_str moves_list] model_json IH];
    intros mbs Hnd; simpl; [done|].
  destruct (load_moves moves_list []); [|done].
  apply IH. by apply dict_set_NoDup.
Qed.

Lemma load_into_entries (model_json : Json.model_json) mbs state matchbox :
  (load_into model_json mbs).1 = Ok tt →
  dict_get (load_into model_json mbs).2 state = Some matchbox →
  (∃ moves_list moves_and_beads,
     load_moves moves_list [] = Ok moves_and_beads ∧
     matchbox = Matchbox.mk state moves_and_beads) ∨
  ((state ∉ dict_keys model_json) ∧ dict_get mbs state = Some matchbox).
Proof.
  unfold dict_keys. revert mbs.
  induction model_json as [|[state_str moves_list] model_json IH];
    intros mbs; simpl.
  - intros _ Hget. right. split; [apply not_elem_of_nil | done].
  - destruct (load_moves moves_list []) as [mab|e] eqn:Hload; [|done].
    intros Hok Hget. destruct (IH _ Hok Hget) as [Hleft|[Hnotin Hget']];
      [by left|].
    destruct (decide (state_str = state)) as [->|Hne].
    + rewrite dict_get_set_eq in Hget'. injection Hget' as <-. left. eauto.
    + rewrite dict_get_set_ne in Hget' by done. right. split; [|done].
      csimpl. apply not_elem_of_cons. split; [done | exact Hnotin].
Qed.

(** A table loaded over one whose states the file all names is storable. *)
Lemma load_into_storable (model_json : Json.model_json) mbs :
  NoDup (dict_keys mbs) →
  (∀ state, state ∈ dict_keys mbs → state ∈ dict_keys model_json) →
  (load_into model_json mbs).1 = Ok tt →
  storable (load_into model_json mbs).2.
Proof.
  intros Hnd Hsub Hok. pose proof (load_into_NoDup model_json mbs Hnd) as Hnd'.
  split; [done|]. apply Forall_forall. intros [state matchbox] Hin.
  apply dict_items_get in Hin; [|done].
  destruct (load_into_entries _ _ _ _ Hok Hin)
    as [(moves_list & mab & Hload & ->)|[Hnotin Hget]].
  - destruct (load_moves_shape _ _ _ Hload) as [Hnd1 Hcodec];
      [constructor | constructor |].
    by split_and!.
  - destruct Hnotin. apply Hsub, dict_get_is_Some. by rewrite Hget.
Qed.

(** X9.  An agent that [__init__] returns can be saved and loaded back.
    Whichever way it was built, from an existing file or from a table of
    states and moves, its table is storable: distinct states, each matchbox
    under its own state name with distinct moves that are pairs of pairs of
    integers or strings.  Its model path is the default path of its game
    and position, a file exists there, and [save_model] on it returns. *)
Theorem init_gives_storable base_dir kw fs me fs' :
  __init__ base_dir kw fs = (Ok me, fs') →
  storable (matchboxes me) ∧
  model_path me = default_model_path base_dir (game_name me) (player_position me) ∧
  is_Some (fs' !! model_path me) ∧
  is_ok (save_model (World me fs')).1 = true.
Proof.
  intros Hinit.
  assert (Hmain : storable (matchboxes me) ∧
            model_path me
              = default_model_path base_dir (game_name me) (player_position me) ∧
            is_Some (fs' !! model_path me)).
  { destruct kw as [pos [name|] table_opt]; [|done].
    destruct (fs !! default_model_path base_dir name pos) as [content|] eqn:Hfile.
    - rewrite (init_import _ _ _ _ _ _ Hfile) in Hinit.
      destruct (load_into content []) as [[[]|e] mbs] eqn:Hload; [|done].
      simpl in Hinit. injection Hinit as <- <-. simpl. split_and!; [|done|by eexists].
      replace mbs with (load_into content []).2 by by rewrite Hload.
      apply load_into_storable; [constructor | | by rewrite Hload].
      intros state Hin. inversion Hin.
    - destruct table_opt as [table|].
      + rewrite (init_create _ _ _ _ _ Hfile) in Hinit.
        destruct (dump_matchboxes _ _) as [model_json|e] eqn:Hdump; [|done].
        destruct (load_into model_json _) as [[[]|e] mbs] eqn:Hload; [|done].
        simpl in Hinit. injection Hinit as <- <-. simpl.
        split_and!; [|done|by rewrite lookup_insert_eq].
        replace mbs with (load_into model_json (fresh_table table 3)).2
          by by rewrite Hload.
        assert (Hnd : NoDup (dict_keys (fresh_table table 3))).
        { apply fresh_into_NoDup. constructor. }
        apply load_into_storable; [done | | by rewrite Hload].
        destruct (dump_matchboxes_entries _ [] _ Hnd Hdump) as (rest & -> & Hrest).
        simpl. intros state. unfold dict_keys, dict_items in *. clear -Hrest.
        induction Hrest as [|[s mb] [s' recs] ?? [Hs _] _ IH]; csimpl; [done|].
        simpl in Hs. rewrite Hs, !elem_of_cons. intros [->|Hin]; auto.
      + unfold __init__, os_path_exists in Hinit. simpl in Hinit.
        rewrite bool_decide_false in Hinit by (rewrite Hfile; by intros [? [=]]).
        done. }
  destruct Hmain as (Hst & Hpath & Hexists). split_and!; [done..|].
  destruct (dump_load_fresh (dict_items (matchboxes me)) [] [])
    as (model_json & Hdump & _); [apply Hst.. |].
  rewrite save_model_run. simpl in *. by rewrite Hdump.
Qed.

Lemma init_gives_storable_witness :
  storable (matchboxes Examples.agent_built) ∧
  model_path Examples.agent_built
    = default_model_path Examples.base_dir "game" (Some 1) ∧
  is_ok (save_model
           (World Examples.agent_built
              (__init__ Examples.base_dir
                 (Kwargs (Some 1) (Some "game") (Some Examples.table_coords))
                 ∅).2)).1 = true.
Proof.
  destruct (init_gives_storable Examples.base_dir
              (Kwargs (Some 1) (Some "game") (Some Examples.table_coords)) ∅
              Examples.agent_built
              (__init__ Examples.base_dir
                 (Kwargs (Some 1) (Some "game") (Some Examples.table_coords))
                 ∅).2) as (Hst & Hpath & _ & Hsave).
  - by vm_compute.
  - split_and!; [exact Hst | exact Hpath | exact Hsave].
Defined.
End persist_more.


(** ** A reported game *)

Section train_more.
Import Matchbox Menace Spec Shape.
Implicit Types (wd : world) (me : Menace.t) (state : string) (move : Move).
Implicit Types (pairs : list (string * Move)) (change beads : Z).

Lemma occurrences_cons (pair p : string * Move) pairs :
  occurrences pair (p :: pairs) =
    if decide (p = pair) then S (occurrences pair pairs)
    else occurrences pair pairs.
Proof.
  unfold occurrences. rewrite filter_cons. by destruct (decide (p = pair)).
Qed.

Lemma adjustable_frame pairs pairs' me me' :
  unchanged_outside pairs' me me' → adjustable me pairs → adjustable me' pairs.
Proof.
  intros (_ & Hkeys & _) Hadj. eapply Forall_impl; [exact Hadj|].
  intros pair (moves & Hm & Hin). exists moves. by rewrite Hkeys.
Qed.

(** An adjustment of a pair the agent can adjust returns, and sets the
    weight of the pair to the clamped sum. *)
Lemma adjust_adjustable change state move wd :
  adjustable (self wd) [(state, move)] →
  ∃ beads wd1,
    adjust (λ matchbox m, _set_beads matchbox m change) state move wd
      = (Ok tt, wd1) ∧
    weight_at (self wd) state move = Some beads ∧
    weight_at (self wd1) state move
      = Some (Z.min (Z.max 1 (beads + change)) 15).
Proof.
  intros [(moves & Hkeys & Hin) _]%Forall_cons. simpl in *.
  unfold keys_at, weight_at in *. rewrite adjust_run.
  destruct (dict_get (matchboxes (self wd)) state) as [matchbox|] eqn:Hget;
    [|done].
  simpl in Hkeys. injection Hkeys as <-.
  apply dict_get_is_Some in Hin as [beads Hbeads].
  rewrite (set_beads_present _ _ _ _ Hbeads). eexists beads, _.
  split_and!; [done | |].
  - simpl. unfold get_beads. by rewrite Hbeads.
  - simpl. rewrite dict_get_set_eq. simpl. unfold get_beads. simpl.
    by rewrite dict_get_set_eq.
Qed.

Lemma for_each_adjust_ok change pairs wd :
  adjustable (self wd) pairs →
  ∃ wd1,
    for_each pairs
      (λ '(state, move),
         adjust (λ matchbox m, _set_beads matchbox m change) state move) wd
      = (Ok tt, wd1).
Proof.
  revert wd. induction pairs as [|[state move] pairs IH]; intros wd Hadj.
  - by exists wd.
  - apply Forall_cons in Hadj as [Hhead Hadj].
    destruct (adjust_adjustable change state move wd) as (b & wd1 & Hrun & _).
    { by constructor. }
    simpl. rewrite bind_run, Hrun.
    pose proof (adjust_frame change state move wd) as [_ Hframe].
    simpl in Hframe. rewrite Hrun in Hframe.
    apply IH. by eapply adjustable_frame.
Qed.

Lemma for_each_adjust_weights change (f : Z → nat → Z) pairs wd state move beads :
  (∀ b, 1 ≤ b ≤ 15 → f b 0%nat = b) →
  (∀ b n, 1 ≤ b ≤ 15 → f (Z.min (Z.max 1 (b + change)) 15) n = f b (S n)) →
  adjustable (self wd) pairs →
  weight_at (self wd) state move = Some beads → 1 ≤ beads ≤ 15 →
  weight_at
    (self (for_each pairs
             (λ '(state, move),
                adjust (λ matchbox m, _set_beads matchbox m change) state move)
             wd).2)
    state move
  = Some (f beads (occurrences (state, move) pairs)).
Proof.
  intros Hf0 HfS. revert wd beads.
  induction pairs as [|[state0 move0] pairs IH]; intros wd beads Hadj Hw Hb.
  - simpl. by rewrite Hf0.
  - apply Forall_cons in Hadj as [Hhead Hadj].
    destruct (adjust_adjustable change state0 move0 wd)
      as (b0 & wd1 & Hrun & Hb0 & Hb1); [by constructor|].
    pose proof (adjust_frame change state0 move0 wd) as [_ Hframe].
    simpl in Hframe. rewrite Hrun in Hframe. simpl in Hframe.
    simpl. rewrite bind_run, Hrun, occurrences_cons.
    assert (Hadj1 : adjustable (self wd1) pairs) by by eapply adjustable_frame.
    destruct (decide ((state0, move0) = (state, move))) as [[= -> ->]|Hne].
    + assert (b0 = beads) as -> by congruence.
      rewrite (IH wd1 _ Hadj1 Hb1) by lia. f_equal. by apply HfS.
    + apply (IH wd1 _ Hadj1); [|done].
      destruct Hframe as (Hweights & _). rewrite Hweights; [done|].
      intros Heq%list_elem_of_singleton. by destruct Hne.
Qed.

(** X10.  When every pair of the player's slice names a state the agent
    knows and a move of that state, the weight a reported game leaves for a
    pair that was between 1 and 15 is, after a win, the old weight plus the
    number of times the pair occurs in the slice, at most 15, and otherwise
    the old weight minus that number, at least 1; this holds for the table
    in memory whether or not the model could then be saved. *)
Theorem game_report_weights game_history player_position winner_position
    wd state move beads :
  let pairs := slice_from_step2 game_history (player_position - 1) in
  let me' := self (game_report game_history player_position winner_position wd).2 in
  adjustable (self wd) pairs →
  weight_at (self wd) state move = Some beads → 1 ≤ beads ≤ 15 →
  weight_at me' state move
    = Some (if decide (player_position = winner_position)
            then Z.min (beads + Z.of_nat (occurrences (state, move) pairs)) 15
            else Z.max (beads - Z.of_nat (occurrences (state, move) pairs)) 1).
Proof.
  intros pairs me' Hadj Hw Hb. unfold me', game_report.
  rewrite train_model_run. fold pairs.
  destruct (decide (player_position = winner_position)) as [Hwin|Hloss].
  - pose proof (for_each_adjust_weights 1 (λ b n, Z.min (b + Z.of_nat n) 15)
                  pairs wd state move beads) as Hloop.
    destruct (for_each_adjust_ok 1 pairs wd Hadj) as [wd1 Hrun].
    unfold reward. rewrite Hrun in Hloop |- *. simpl in Hloop.
    rewrite save_model_run. destruct (dump_matchboxes _ _); simpl;
      (apply Hloop; [intros; lia | intros; lia | done..]).
  - pose proof (for_each_adjust_weights (-1) (λ b n, Z.max (b - Z.of_nat n) 1)
                  pairs wd state move beads) as Hloop.
    destruct (for_each_adjust_ok (-1) pairs wd Hadj) as [wd1 Hrun].
    unfold punish. rewrite Hrun in Hloop |- *. simpl in Hloop.
    rewrite save_model_run. destruct (dump_matchboxes _ _); simpl;
      (apply Hloop; [intros; lia | intros; lia | done..]).
Qed.

Lemma game_report_weights_witness :
  weight_at
    (self (game_report Examples.history_twice 1 1 Examples.world_coords).2)
    "b0" (Examples.coords 2 2 1 2) = Some 5 ∧
  weight_at
    (self (game_report Examples.history_twice 1 2 Examples.world_coords).2)
    "b0" (Examples.coords 2 2 1 2) = Some 1.
Proof.
  split.
  - apply (game_report_weights Examples.history_twice 1 1 Examples.world_coords
             "b0" (Examples.coords 2 2 1 2) 3); [|reflexivity|lia].
    repeat first [apply Forall_nil_2 | apply Forall_cons_2];
      (eexists; split; [reflexivity | compute_done]).
  - apply (game_report_weights Examples.history_twice 1 2 Examples.world_coords
             "b0" (Examples.coords 2 2 1 2) 3); [|reflexivity|lia].
    repeat first [apply Forall_nil_2 | apply Forall_cons_2];
      (eexists; split; [reflexivity | compute_done]).
Defined.

Lemma adjust_storable change state move wd :
  storable (matchboxes (self wd)) →
  storable
    (matchboxes
       (self (adjust (λ matchbox m, _set_beads matchbox m change) state move wd).2)).
Proof.
  intros [Hnd Hall]. rewrite adjust_run.
  destruct (dict_get (matchboxes (self wd)) state) as [matchbox|] eqn:Hget;
    [|done].
  destruct (_set_beads matchbox move change) as [matchbox'|e] eqn:Hset; [|done].
  simpl. apply set_beads_keys in Hset as [Hkeys Hstate]. split.
  - rewrite dict_keys_set_present; [done | by rewrite Hget].
  - apply dict_items_set_Forall; [done|].
    apply dict_get_Some_items in Hget. rewrite Forall_forall in Hall.
    destruct (Hall _ Hget) as (Hst & Hnd' & Hcodec). simpl in *.
    unfold storable_box. simpl. by rewrite Hkeys, Hstate.
Qed.

Lemma for_each_adjust_storable change pairs wd :
  storable (matchboxes (self wd)) →
  storable
    (matchboxes
       (self (for_each pairs
                (λ '(state, move),
                   adjust (λ matchbox m, _set_beads matchbox m change) state move)
                wd).2)).
Proof.
  revert wd. induction pairs as [|[state move] pairs IH]; intros wd Hst; [done|].
  simpl. rewrite bind_run.
  pose proof (adjust_storable change state move wd Hst) as Hst1.
  destruct (adjust _ state move wd) as [[[]|e] wd1]; simpl in *; [|done].
  by apply IH.
Qed.

(** X11.  A reported game that can be played back is kept.  For a storable
    table, and a slice whose every pair names a known state and one of its
    moves, [game_report] returns; the table stays storable and the other
    attributes of the agent are unchanged; the model file holds the table as
    trained, no other file changes; and an agent constructed afterwards for
    that model path starts from exactly the trained table. *)
Theorem game_report_persists game_history player_position winner_position me fs :
  storable (matchboxes me) →
  adjustable me (slice_from_step2 game_history (player_position - 1)) →
  ∃ me' model_json,
    let fs' := <[model_path me := model_json]> fs in
    game_report game_history player_position winner_position (World me fs)
      = (Ok tt, World me' fs') ∧
    storable (matchboxes me') ∧
    with_matchboxes me' [] = with_matchboxes me [] ∧
    dump_matchboxes (dict_items (matchboxes me')) [] = Ok model_json ∧
    (∀ base_dir pos name table_opt,
       default_model_path base_dir name pos = model_path me →
       __init__ base_dir (Kwargs pos (Some name) table_opt) fs'
         = (Ok (Menace.mk pos name table_opt (model_path me) (matchboxes me')),
            fs')).
Proof.
  intros Hst Hadj. unfold game_report.
  assert (Hloop : ∃ change wd1,
            for_each (slice_from_step2 game_history (player_position - 1))
              (λ '(state, move),
                 adjust (if decide (player_position = winner_position)
                         then reward else punish) state move) (World me fs)
            = (Ok tt, wd1) ∧
            for_each (slice_from_step2 game_history (player_position - 1))
              (λ '(state, move),
                 adjust (λ matchbox m, _set_beads matchbox m change) state move)
              (World me fs)
            = (Ok tt, wd1)).
  { destruct (decide (player_position = winner_position)).
    - destruct (for_each_adjust_ok 1 _ (World me fs) Hadj) as [wd1 Hrun].
      by exists 1, wd1.
    - destruct (for_each_adjust_ok (-1) _ (World me fs) Hadj) as [wd1 Hrun].
      by exists (-1), wd1. }
  destruct Hloop as (change & wd1 & Hrun & Hrun').
  pose proof (for_each_adjust_frame change
                (slice_from_step2 game_history (player_position - 1))
                (World me fs)) as [Hfiles (_ & _ & _ & Hattrs)].
  pose proof (for_each_adjust_storable change
                (slice_from_step2 game_history (player_position - 1))
                (World me fs) Hst) as Hst1.
  simpl in Hfiles, Hattrs, Hst1. rewrite Hrun' in Hfiles, Hattrs, Hst1.
  simpl in Hfiles, Hattrs, Hst1.
  assert (Hpath : model_path (self wd1) = model_path me).
  { by apply (f_equal model_path) in Hattrs. }
  destruct (storable_save_load (self wd1) fs Hst1)
    as (model_json & Hsave & _ & Hinit).
  simpl in Hsave, Hinit. rewrite Hpath in Hsave, Hinit.
  exists (self wd1), model_json. simpl.
  rewrite train_model_run, Hrun. split_and!; [|done..| |done].
  - destruct wd1 as [me1 fs1]. simpl in *. by subst fs1.
  - rewrite save_model_run in Hsave. simpl in Hsave.
    destruct (dump_matchboxes _ _) as [j|]; [|done].
    injection Hsave as Hj. f_equal.
    apply (f_equal (λ m : FS, m !! model_path me)) in Hj.
    rewrite Hpath, !lookup_insert_eq in Hj. congruence.
Qed.

Lemma game_report_persists_witness :
  ∃ me' model_json,
    let fs' := <[model_path Examples.agent_built := model_json]> ∅ in
    game_report Examples.history_built 1 1 (World Examples.agent_built ∅)
      = (Ok tt, World me' fs') ∧
    __init__ Examples.base_dir (Kwargs (Some 1) (Some "game") None) fs'
      = (Ok (Menace.mk (Some 1) "game" None (model_path Examples.agent_built)
               (matchboxes me')), fs').
Proof.
  destruct (game_report_persists Examples.history_built 1 1
              Examples.agent_built ∅)
    as (me' & model_json & Hrun & _ & _ & _ & Hinit).
  - split; [compute_done|].
    repeat first [apply Forall_nil_2 | apply Forall_cons_2];
      (split_and!; [reflexivity | compute_done | compute_done]).
  - repeat first [apply Forall_nil_2 | apply Forall_cons_2];
      (eexists; split; [reflexivity | compute_done]).
  - exists me', model_json. split; [exact Hrun|]. apply Hinit. reflexivity.
Defined.

Lemma adjust_bounds change state move wd :
  all_weights Calls.in_bounds (matchboxes (self wd)) →
  all_weights Calls.in_bounds
    (matchboxes
       (self (adjust (λ matchbox m, _set_beads matchbox m change) state move wd).2)).
Proof.
  intros Hall. rewrite adjust_run.
  destruct (dict_get (matchboxes (self wd)) state) as [matchbox|] eqn:Hget;
    [|done].
  destruct (_set_beads matchbox move change) as [matchbox'|e] eqn:Hset; [|done].
  simpl. unfold all_weights in *.
  apply (dict_values_set_Forall
           (λ mb, Forall Calls.in_bounds (dict_values (moves_and_beads mb))));
    [done|].
  apply set_beads_Ok_inv in Hset as (beads & Hbeads & ->). simpl.
  apply dict_values_set_Forall; [|apply clamp_in_bounds].
  apply dict_get_Some_items in Hget.
  apply (list_elem_of_fmap_2 snd) in Hget. rewrite Forall_forall in Hall.
  exact (Hall _ Hget).
Qed.

Lemma game_report_bounds game_history player_position winner_position wd :
  all_weights Calls.in_bounds (matchboxes (self wd)) →
  all_weights Calls.in_bounds
    (matchboxes
       (self (game_report game_history player_position winner_position wd).2)).
Proof.
  intros Hall. unfold game_report. rewrite train_model_run.
  set (pairs := slice_from_step2 _ _).
  assert (Hloop : ∀ change wd0,
            all_weights Calls.in_bounds (matchboxes (self wd0)) →
            all_weights Calls.in_bounds
              (matchboxes
                 (self (for_each pairs
                          (λ '(state, move),
                             adjust (λ matchbox m, _set_beads matchbox m change)
                                    state move) wd0).2))).
  { intros change. induction pairs as [|[state move] pairs IH]; intros wd0 H0;
      [done|].
    simpl. rewrite bind_run.
    pose proof (adjust_bounds change state move wd0 H0) as H1.
    destruct (adjust _ state move wd0) as [[[]|e] wd1]; simpl in *; [|done].
    by apply IH. }
  assert (Hres : all_weights Calls.in_bounds
            (matchboxes
               (self (for_each pairs
                        (λ '(state, move),
                           adjust (if decide (player_position = winner_position)
                                   then reward else punish) state move) wd).2))).
  { destruct (decide (player_position = winner_position));
      [apply (Hloop 1) | apply (Hloop (-1))]; done. }
  destruct (for_each pairs _ wd) as [[[]|e] wd1]; simpl in *; [|done].
  rewrite save_model_run. by destruct (dump_matchboxes _ _).
Qed.

(** X12.  Training never takes a move out of play.  If every weight of the
    agent lies between 1 and 15, then after any series of reported games,
    whatever their histories and outcomes and whether they raised or not,
    every weight still lies between 1 and 15, and [get_move] returns a move
    of the matchbox, for every value of [random()], from every state whose
    matchbox has a move at all, and fewer than [2^1000] of them: the total
    weight of a longer table is beyond the range of floats. *)
Theorem report_all_keeps_playable games wd :
  all_weights Calls.in_bounds (matchboxes (self wd)) →
  let me' := self (report_all games wd) in
  all_weights Calls.in_bounds (matchboxes me') ∧
  ∀ board_state matchbox rnd,
    dict_get (matchboxes me') board_state = Some matchbox →
    moves_and_beads matchbox ≠ [] →
    Z.of_nat (length (moves_and_beads matchbox)) < 2 ^ 1000 →
    ∃ move, get_move me' board_state rnd = Ok move ∧
            move ∈ dict_keys (moves_and_beads matchbox).
Proof.
  intros Hall. simpl.
  assert (Hfinal : all_weights Calls.in_bounds
                     (matchboxes (self (report_all games wd)))).
  { unfold report_all. revert wd Hall.
    induction games as [|[[game_history player_position] winner_position] games IH];
      intros wd Hall; simpl; [done|].
    apply IH. by apply game_report_bounds. }
  split; [done|]. intros board_state matchbox rnd Hget Hne Hlen.
  unfold get_move. rewrite Hget.
  assert (Hbox : Forall Calls.in_bounds (dict_values (moves_and_beads matchbox))).
  { apply dict_get_Some_items in Hget.
    apply (list_elem_of_fmap_2 snd) in Hget.
    unfold all_weights in Hfinal. rewrite Forall_forall in Hfinal.
    exact (Hfinal _ Hget). }
  apply draw_bead_returns; [done|].
  pose proof (sum_list_bounds 1 15 _ Hbox) as Hsum.
  pose proof int_limit_bounds.
  unfold dict_values in Hsum. rewrite length_fmap in Hsum.
  assert (0 < Z.of_nat (length (moves_and_beads matchbox))).
  { destruct (moves_and_beads matchbox); [done | simpl; lia]. }
  unfold dict_values. lia.
Qed.

Lemma report_all_keeps_playable_witness :
  let me' := self (report_all
                     [(Examples.history_coords, 1, 2);
                      (Examples.history_unknown, 1, 1);
                      (Examples.history_twice, 1, 2)]
                     Examples.world_coords) in
  all_weights Calls.in_bounds (matchboxes me') ∧
  ∃ move, get_move me' "b0" Examples.one_half = Ok move ∧
          move ∈ dict_keys (moves_and_beads Examples.box_coords).
Proof.
  destruct (report_all_keeps_playable
              [(Examples.history_coords, 1, 2);
               (Examples.history_unknown, 1, 1);
               (Examples.history_twice, 1, 2)]
              Examples.world_coords) as [Hall Hmove].
  - repeat first [apply Forall_nil_2 | apply Forall_cons_2];
      vm_compute; intuition discriminate.
  - split; [exact Hall|].
    destruct (Hmove "b0"
                (Matchbox.mk "b0" [(Examples.coords 2 0 1 0, 1);
                                   (Examples.coords 2 1 1 1, 15);
                                   (Examples.coords 2 2 1 2, 1)])
                Examples.one_half) as (move & Hrun & Hin);
      [reflexivity | discriminate | reflexivity |].
    exists move. split; [exact Hrun | exact Hin].
Defined.
End train_more.

(** ** Paths, positions and fresh tables *)

Section misc_more.
Import Matchbox Menace Spec Shape.
Implicit Types (wd : world) (me : Menace.t) (state : string) (move : Move).

Lemma string_length_app (s1 s2 : string) :
  String.length (s1 +:+ s2) = (String.length s1 + String.length s2)%nat.
Proof. induction s1 as [|c s1 IH]; simpl; [done | by rewrite IH]. Qed.

Lemma string_app_inj_r (s1 s2 suffix : string) :
  s1 +:+ suffix = s2 +:+ suffix → s1 = s2.
Proof.
  revert s2. induction s1 as [|c1 s1 IH]; intros [|c2 s2] Heq; simpl in Heq.
  - done.
  - apply (f_equal String.length) in Heq.
    rewrite ?string_length_app in Heq. simpl in Heq.
    rewrite ?string_length_app in Heq. lia.
  - apply (f_equal String.length) in Heq.
    rewrite ?string_length_app in Heq. simpl in Heq.
    rewrite ?string_length_app in Heq. lia.
  - injection Heq as -> Heq. f_equal. by apply IH.
Qed.

(** X13.  Model files do not collide within a game or within a position:
    under one directory, the default paths of two players of the same game
    are equal only if the positions are, and those of two games at the same
    position only if the game names are. *)
Theorem default_model_path_distinct base_dir name1 name2 (pos1 pos2 : Z) :
  default_model_path base_dir name1 (Some pos1)
    = default_model_path base_dir name2 (Some pos2) →
  (name1 = name2 → pos1 = pos2) ∧ (pos1 = pos2 → name1 = name2).
Proof.
  unfold default_model_path, os_path_join, str_of_position. intros Heq.
  assert (Hrel : name1 +:+ "_player" +:+ pretty pos1 +:+ "_menace_model.json"
                 = name2 +:+ "_player" +:+ pretty pos2 +:+ "_menace_model.json").
  { destruct (bool_decide (base_dir = "") || ends_with_slash base_dir).
    - apply (inj (String.append base_dir)) in Heq. by injection Heq.
    - apply (inj (String.append base_dir)) in Heq. by injection Heq. }
  split.
  - intros ->. apply (inj (String.append name2)) in Hrel.
    injection Hrel as Hrel.
    change (pretty pos1 +:+ "_menace_model.json"
            = pretty pos2 +:+ "_menace_model.json") in Hrel.
    apply string_app_inj_r in Hrel.
    by apply (inj pretty) in Hrel.
  - intros ->. by apply string_app_inj_r in Hrel.
Qed.

Lemma default_model_path_distinct_witness :
  default_model_path Examples.base_dir "game" (Some 1)
    ≠ default_model_path Examples.base_dir "game" (Some 2).
Proof.
  intros Heq.
  destruct (default_model_path_distinct Examples.base_dir "game" "game" 1 2 Heq)
    as [Hpos _].
  specialize (Hpos eq_refl). discriminate Hpos.
Defined.

(** X14.  Positions at the edges.  When the player position exceeds the
    length of the history, as for an empty history, a reported game adjusts
    nothing: it is [save_model] alone and the agent is as before.  At
    position 0 the slice is the last pair of the history alone, and at a
    position so far below 1 that the start falls before the history, it is
    every second pair from the first on. *)
Theorem game_report_edge_positions :
  (∀ game_history player_position winner_position wd,
     Z.of_nat (length game_history) < player_position →
     game_report game_history player_position winner_position wd = save_model wd ∧
     self (game_report game_history player_position winner_position wd).2
       = self wd) ∧
  (∀ (game_history : list (string * Move)) pair,
     slice_from_step2 (game_history ++ [pair]) (0 - 1) = [pair]) ∧
  (∀ (game_history : list (string * Move)) player_position,
     player_position - 1 ≤ - Z.of_nat (length game_history) →
     slice_from_step2 game_history (player_position - 1) = stride2 game_history).
Proof.
  split_and!.
  - intros game_history player_position winner_position wd Hlen.
    unfold game_report. rewrite train_model_run.
    rewrite slice_from_step2_nonneg by lia. rewrite drop_ge by lia. simpl.
    split; [done|]. rewrite save_model_run. by destruct (dump_matchboxes _ _).
  - intros game_history pair.
    assert (Hstart : slice_start (length (game_history ++ [pair])) (0 - 1)
                     = length game_history).
    { unfold slice_start. rewrite length_app. simpl length.
      change (0 - 1 <? 0) with true. cbv iota. lia. }
    unfold slice_from_step2. by rewrite Hstart, drop_app_length.
  - intros game_history player_position Hneg. unfold slice_from_step2, slice_start.
    destruct (Z.ltb_spec (player_position - 1) 0) as [Hlt|Hge].
    + by replace (Z.to_nat (Z.max _ 0)) with 0%nat by lia.
    + assert (length game_history = 0%nat) as Hnil by lia.
      apply nil_length_inv in Hnil as ->. by rewrite drop_nil.
Qed.

Lemma game_report_edge_positions_witness :
  game_report Examples.history_coords 4 4 Examples.world_coords
    = save_model Examples.world_coords ∧
  slice_from_step2 Examples.history_coords (-5 - 1)
    = [("b0", Examples.coords 2 2 1 2); ("b0", Examples.coords 2 0 1 0)].
Proof.
  destruct game_report_edge_positions as (Hbeyond & _ & Hbelow). split.
  - apply (Hbeyond Examples.history_coords 4 4 Examples.world_coords). by vm_compute.
  - rewrite (Hbelow Examples.history_coords (-5)); [reflexivity | by vm_compute].
Defined.

Lemma fresh_into_other (table : dict string (list Move)) initial_beads mbs state :
  state ∉ dict_keys table →
  dict_get (fresh_into table initial_beads mbs) state = dict_get mbs state.
Proof.
  unfold fresh_into, dict_keys. revert mbs.
  induction table as [|[state' moves] table IH]; intros mbs Hnotin; simpl; [done|].
  csimpl in Hnotin. apply not_elem_of_cons in Hnotin as [Hne Hnotin].
  rewrite IH by done. by rewrite dict_get_set_ne.
Qed.

Lemma fresh_into_known (table : dict string (list Move)) initial_beads mbs state :
  state ∈ dict_keys table →
  ∃ moves, (state, moves) ∈ dict_items table ∧
    dict_get (fresh_into table initial_beads mbs) state
      = Some (Matchbox.mk state (fresh_beads moves initial_beads)).
Proof.
  unfold dict_keys, dict_items. revert mbs.
  induction table as [|[state' moves] table IH]; intros mbs Hin; csimpl in *.
  - inversion Hin.
  - destruct (decide (state ∈ table.*1)) as [Hlater|Hlast].
    + destruct (IH (dict_set mbs state'
                      (Matchbox.mk state' (fresh_beads moves initial_beads)))
                  Hlater) as (moves' & Hin' & Hget).
      exists moves'. split; [by right | exact Hget].
    + apply elem_of_cons in Hin as [->|Hin]; [|done].
      exists moves. split; [left|].
      change (foldl _ _ table) with
        (fresh_into table initial_beads
           (dict_set mbs state'
              (Matchbox.mk state' (fresh_beads moves initial_beads)))).
      rewrite fresh_into_other by done. apply dict_get_set_eq.
Qed.

(** X15.  [create_model] on an agent that already has a table starts the
    states of the given table over and keeps the rest.  The matchbox of a
    state that the table does not name is kept; a state of the table gets a
    new matchbox under its name with the moves listed for it, each at the
    initial number of beads exactly as given, whatever that number is and
    whatever weights were learned before; the model path becomes the default
    path of the game and position, and no file at another path changes. *)
Theorem create_model_starts_over base_dir pos name table initial_beads wd :
  let res := create_model base_dir pos name table initial_beads wd in
  model_path (self res.2) = default_model_path base_dir name pos ∧
  (∀ state, state ∉ dict_keys table →
     dict_get (matchboxes (self res.2)) state
       = dict_get (matchboxes (self wd)) state) ∧
  (∀ state, state ∈ dict_keys table →
     ∃ moves matchbox,
       (state, moves) ∈ dict_items table ∧
       dict_get (matchboxes (self res.2)) state = Some matchbox ∧
       Matchbox.state matchbox = state ∧
       (∀ move, move ∈ dict_keys (moves_and_beads matchbox) ↔ move ∈ moves) ∧
       Forall (λ beads, beads = initial_beads)
              (dict_values (moves_and_beads matchbox))) ∧
  (∀ path, path ≠ default_model_path base_dir name pos →
     files res.2 !! path = files wd !! path).
Proof.
  simpl. rewrite create_model_run. simpl.
  set (mbs' := fresh_into table initial_beads (matchboxes (self wd))).
  assert (Hrest :
    (∀ state, state ∉ dict_keys table →
       dict_get mbs' state = dict_get (matchboxes (self wd)) state) ∧
    (∀ state, state ∈ dict_keys table →
       ∃ moves matchbox,
         (state, moves) ∈ dict_items table ∧
         dict_get mbs' state = Some matchbox ∧
         Matchbox.state matchbox = state ∧
         (∀ move, move ∈ dict_keys (moves_and_beads matchbox) ↔ move ∈ moves) ∧
         Forall (λ beads, beads = initial_beads)
                (dict_values (moves_and_beads matchbox)))).
  { split.
    - intros state Hnotin. by apply fresh_into_other.
    - intros state Hin.
      destruct (fresh_into_known table initial_beads (matchboxes (self wd))
                  state Hin) as (moves & Hin' & Hget).
      exists moves, (Matchbox.mk state (fresh_beads moves initial_beads)).
      split_and!; [done | done | done | |].
      + intros move. simpl. unfold fresh_beads. rewrite fresh_beads_acc_keys.
        split; [intros [Hm|Hm]; [inversion Hm | done] | by right].
      + simpl. apply fresh_beads_acc_values; [done | constructor]. }
  destruct Hrest as [Hother Hknown].
  destruct (dump_matchboxes _ _) as [model_json|e]; simpl.
  - split_and!; [done | done | done |].
    intros path Hne. by rewrite lookup_insert_ne.
  - by split_and!.
Qed.

Lemma create_model_starts_over_witness :
  let res := create_model Examples.base_dir (Some 1) "game"
               [("b0", [Examples.coords 2 2 1 2])] 0 Examples.world_coords in
  dict_get (matchboxes (self res.2)) "end" = Some (Matchbox.mk "end" []) ∧
  dict_get (matchboxes (self res.2)) "b0"
    = Some (Matchbox.mk "b0" [(Examples.coords 2 2 1 2, 0)]) ∧
  files res.2 !! "elsewhere.json" = None.
Proof.
  destruct (create_model_starts_over Examples.base_dir (Some 1) "game"
              [("b0", [Examples.coords 2 2 1 2])] 0 Examples.world_coords)
    as (_ & Hkeep & _ & Hfiles).
  split_and!.
  - rewrite Hkeep; [reflexivity | compute_done].
  - reflexivity.
  - rewrite Hfiles; [reflexivity | discriminate].
Defined.
End misc_more.

(** ** Loading a file and saving it back *)

Section reload_more.
Import Matchbox Menace Spec Shape.
Implicit Types (wd : world) (me : Menace.t) (state : string) (move : Move).

Lemma plain_hashable j :
  plain j = true → ∃ v, hashable j = Ok v ∧ dump v = j.
Proof. destruct j; simpl; [eauto..|done]. Qed.

(** The record written for a move is a function of the move. *)
Lemma moves_list_of_image (its : list (Move * Z)) moves_list move a b c d :
  moves_list_of its = Ok moves_list →
  move ∈ its.*1 →
  unpack_move move = Ok ((a, b), (c, d)) →
  ((dump a, dump b), (dump c, dump d)) ∈ Json.move <$> moves_list.
Proof.
  revert moves_list. induction its as [|[move' w] its IH]; intros moves_list; csimpl.
  - intros _ Hin. inversion Hin.
  - destruct (unpack_move move') as [[[a' b'] [c' d']]|e] eqn:Hun; simpl; [|done].
    destruct (moves_list_of its) as [rest|e]; simpl; [|done].
    intros [= <-] Hin Hmove. csimpl.
    apply elem_of_cons in Hin as [->|Hin].
    + rewrite Hmove in Hun. injection Hun as <- <- <- <-. left.
    + right. by apply IH.
Qed.

Lemma plain_records_load moves_list :
  Forall (λ item, plain_record item = true) moves_list →
  NoDup (Json.move <$> moves_list) →
  ∃ its : list (Move * Z),
    moves_list_of its = Ok moves_list ∧
    ∀ acc : dict Move Z,
      (∀ k, k ∈ its.*1 → k ∉ dict_keys acc) →
      load_moves moves_list acc = Ok (acc ++ its).
Proof.
  induction moves_list as [|[[[fr fc] [tr tc]] w] moves_list IH];
    intros Hplain Hnd.
  - exists []. split; [done|]. intros acc _. simpl. by rewrite app_nil_r.
  - apply Forall_cons in Hplain as [Hrec Hplain].
    csimpl in Hnd. apply NoDup_cons in Hnd as [Hfresh Hnd].
    destruct (IH Hplain Hnd) as (its & Hlist & Hload).
    unfold plain_record in Hrec. simpl in Hrec.
    apply andb_prop in Hrec as [Hrec H4]. apply andb_prop in Hrec as [Hrec H3].
    apply andb_prop in Hrec as [H1 H2].
    destruct (plain_hashable _ H1) as (a & Ha & Hda).
    destruct (plain_hashable _ H2) as (b & Hb & Hdb).
    destruct (plain_hashable _ H3) as (c & Hc & Hdc).
    destruct (plain_hashable _ H4) as (d & Hd & Hdd).
    set (key := PTuple [PTuple [a; b]; PTuple [c; d]]).
    assert (Hkey : key ∉ its.*1).
    { intros Hin.
      pose proof (moves_list_of_image its moves_list key a b c d Hlist Hin eq_refl)
        as Himg.
      rewrite Hda, Hdb, Hdc, Hdd in Himg. by apply Hfresh. }
    exists ((key, w) :: its). split.
    + simpl. rewrite Hlist. simpl. by rewrite Hda, Hdb, Hdc, Hdd.
    + intros acc Hacc. simpl. rewrite Ha, Hb, Hc, Hd. simpl. fold key.
      rewrite dict_set_absent.
      * rewrite Hload; [by rewrite <- app_assoc|].
        intros k Hk. unfold dict_keys. rewrite fmap_app, elem_of_app.
        intros [Hin|Hin].
        -- apply (Hacc k); [csimpl; by right | done].
        -- csimpl in Hin. apply list_elem_of_singleton in Hin as ->. done.
      * apply dict_get_None. apply Hacc. csimpl. left.
Qed.

Lemma load_dump_fresh (content accj : Json.model_json)
    (accm : dict string Matchbox.t) :
  NoDup (dict_keys accm ++ dict_keys content) →
  NoDup (dict_keys accj ++ dict_keys content) →
  Forall (λ moves_list,
            NoDup (Json.move <$> moves_list) ∧
            Forall (λ item, plain_record item = true) moves_list)
         (dict_values content) →
  ∃ rest, load_into content accm = (Ok tt, accm ++ rest) ∧
          dump_matchboxes rest accj = Ok (accj ++ content).
Proof.
  revert accm accj.
  induction content as [|[state_str moves_list] content IH];
    intros accm accj Hm Hj Hall.
  - exists []. by rewrite !app_nil_r.
  - unfold dict_values in Hall. csimpl in Hall.
    apply Forall_cons in Hall as [[Hnd Hplain] Hall].
    destruct (plain_records_load moves_list Hplain Hnd) as (its & Hlist & Hload).
    specialize (Hload [] ltac:(intros k _ Hin; inversion Hin)). simpl in Hload.
    assert (Hnone : ∀ {V} (acc : dict string V),
              NoDup (dict_keys acc
                     ++ dict_keys ((state_str, moves_list) :: content)) →
              dict_get acc state_str = None).
    { intros V acc Hndk. apply dict_get_None. intros Hin.
      apply NoDup_app in Hndk as (_ & Hdisj & _).
      apply (Hdisj state_str Hin). left. }
    destruct (IH (accm ++ [(state_str, Matchbox.mk state_str its)])
                (accj ++ [(state_str, moves_list)]))
      as (rest & Hreload & Hdump); [| |done|].
    { unfold dict_keys in *. rewrite fmap_app, <- app_assoc. by csimpl in *. }
    { unfold dict_keys in *. rewrite fmap_app, <- app_assoc. by csimpl in *. }
    exists ((state_str, Matchbox.mk state_str its) :: rest). simpl.
    unfold dict_items.
    rewrite Hload, (dict_set_absent accm) by by apply Hnone.
    rewrite Hreload, Hlist. simpl.
    rewrite (dict_set_absent accj) by by apply Hnone.
    rewrite Hdump, <- !app_assoc. done.
Qed.

(** X16.  Loading a model and saving it again rewrites the same file.  For
    a file with distinct states whose records, per state, are for distinct
    moves and hold no nested lists, [import_model] into an agent with an
    empty table returns with a storable table, and [save_model] then returns
    and leaves every file, the model file too, exactly as it was. *)
Theorem load_then_save me fs content :
  matchboxes me = [] →
  fs !! model_path me = Some content →
  plain_json content →
  ∃ mbs,
    import_model (model_path me) (World me fs)
      = (Ok tt, World (with_matchboxes me mbs) fs) ∧
    storable mbs ∧
    save_model (World (with_matchboxes me mbs) fs)
      = (Ok tt, World (with_matchboxes me mbs) fs).
Proof.
  intros Hempty Hfile [Hnd Hall].
  destruct (load_dump_fresh content [] []) as (mbs & Hload & Hdump); [done..|].
  simpl in Hload, Hdump. exists mbs. split_and!.
  - rewrite import_model_run. simpl. by rewrite Hfile, Hempty, Hload.
  - replace mbs with (load_into content []).2 by by rewrite Hload.
    apply load_into_storable; [constructor | | by rewrite Hload].
    intros state Hin. inversion Hin.
  - rewrite save_model_run. simpl. unfold dict_items. rewrite Hdump.
    by rewrite insert_id.
Qed.

Lemma load_then_save_witness :
  ∃ mbs,
    import_model "/srv/menace/models/game_player1_menace_model.json"
      (World (Menace.mk (Some 1) "game" None
                "/srv/menace/models/game_player1_menace_model.json" [])
             Examples.files_with_model)
      = (Ok tt,
         World (Menace.mk (Some 1) "game" None
                  "/srv/menace/models/game_player1_menace_model.json" mbs)
               Examples.files_with_model) ∧
    save_model
      (World (Menace.mk (Some 1) "game" None
                "/srv/menace/models/game_player1_menace_model.json" mbs)
             Examples.files_with_model)
      = (Ok tt,
         World (Menace.mk (Some 1) "game" None
                  "/srv/menace/models/game_player1_menace_model.json" mbs)
               Examples.files_with_model).
Proof.
  destruct (load_then_save
              (Menace.mk (Some 1) "game" None
                 "/srv/menace/models/game_player1_menace_model.json" [])
              Examples.files_with_model Examples.stored_model)
    as (mbs & Hload & _ & Hsave).
  - reflexivity.
  - reflexivity.
  - split; [compute_done|].
    repeat first [apply Forall_nil_2 | apply Forall_cons_2].
    split; [|compute_done]. csimpl.
    repeat (apply NoDup_cons_2;
            [intros Hin;
             repeat (apply elem_of_cons in Hin as [Hin|Hin]; [discriminate Hin|]);
             inversion Hin|]).
    apply NoDup_nil_2.
  - exists mbs. split; [exact Hload | exact Hsave].
Defined.
End reload_more.
